(** * GoSettlement: the in-memory settlement engine

    A shallow embedding of [GoSettlement/main.go] (types [Transaction],
    [Account], [SettlementResult], [SettlementEngine] and the methods of the
    engine) together with the properties of the engine that the design
    document of the repository states.

    Modelling choices, all taken from the Go source:
    - [float64] is the kernel's binary64 type [float]; [+], [-], [<], [<=]
      on it are the IEEE 754 operations that Go's operators compile to.
      Go's [x >= y] is written [y <=? x] (the same predicate, also on NaN).
    - [int64] is [Z] with the wrap-around of [Version++] written out.
    - [map[string]*Account] is a [gmap string Account.t]; a write through
      the pointer stored in the map is an insertion at the same key.
    - [time.Time] is its [UnixNano] reading, a [Z]; [time.Now()] reads a
      wall clock [wall : nat -> Z] whose n-th reading is [wall n], and the
      state counts the readings taken so far.
    - the buffered channel is its FIFO buffer together with its capacity.
    - [*Transaction]: the methods are first modelled on transaction values;
      the system with shared objects then keeps the callers' objects in a
      heap and puts pointers into the channel, as the program does.
    - [sync.RWMutex]: every critical section is one atomic state
      transformer; console output ([fmt.Printf]) is not part of the state. *)

From Stdlib Require Import ZArith Floats Lia.
From stdpp Require Import gmap strings list pretty.

Open Scope Z_scope.

(** ** Basic types *)

Definition time_Time : Type := Z.
Definition time_Duration : Type := Z.
Definition time_Second : time_Duration := 1000000000.

(** [x >= y] on [float64]. *)
Definition float_ge (x y : float) : bool := PrimFloat.leb y x.

(** [int64] arithmetic: the result of an operation is reduced to the
    interval from [-2^63] to [2^63 - 1]. *)
Definition int64_min : Z := - 2 ^ 63.
Definition int64_max : Z := 2 ^ 63 - 1.
Definition int64_wrap (z : Z) : Z := (z + 2 ^ 63) mod 2 ^ 64 - 2 ^ 63.

Module Transaction.
Record t : Type := mk {
  ID : string;
  UserID : string;
  Amount : float;
  Type_ : string;
  Status : string;
  Timestamp : time_Time;
  Description : string
}.
End Transaction.

Module Account.
Record t : Type := mk {
  UserID : string;
  Balance : float;
  FrozenAmount : float;
  Version : Z;
  UpdatedAt : time_Time
}.
End Account.

Module SettlementResult.
Record t : Type := mk {
  TransactionID : string;
  Success : bool;
  NewBalance : float;
  ErrorMessage : string;
  Timestamp : time_Time
}.
End SettlementResult.

(** A buffered channel: the elements waiting in it, oldest first, and the
    capacity it was made with. *)
Record chan (A : Type) : Type := mk_chan {
  chan_buf : list A;
  chan_cap : nat
}.
Arguments mk_chan {A} _ _.
Arguments chan_buf {A} _.
Arguments chan_cap {A} _.

Record SettlementEngine : Type := mk_engine {
  accounts : gmap string Account.t;
  transactions : list Transaction.t;
  settlementChan : chan Transaction.t;
  stopChan_closed : bool;
  batchSize : Z;
  batchTimeout : time_Duration
}.

(** The error values of the engine.  The Go code builds them with
    [fmt.Errorf]; an [error] is its message, [nil] is [None]. *)
Definition error : Type := option string.

Definition DuplicateAccount (userID : string) : string :=
  "账户 " +:+ userID +:+ " 已存在".
Definition AccountNotFound (userID : string) : string :=
  "账户 " +:+ userID +:+ " 不存在".
Definition InvalidTransaction : string := "无效的交易参数".
Definition QueueFull : string := "结算队列已满".
Definition FreezeInsufficientBalance : string := "余额不足，无法冻结".
Definition InsufficientFrozenFunds : string := "冻结金额不足".

(** The messages a settlement result carries. *)
Definition SettleAccountNotFound : string := "账户不存在".
Definition InsufficientBalance : string := "余额不足".
Definition InvalidTransactionKind : string := "无效的交易类型".

(** The zero value of [float64] and of [string], which Go gives to the
    fields a composite literal leaves out and to declared variables. *)
Definition float_zero : float := 0%float.
Definition string_zero : string := "".

Section Engine.

(** The wall clock: [wall n] is what the n-th call of [time.Now()]
    returns. *)
Variable wall : nat -> time_Time.

(** ** The state and the monad the methods run in *)

Record World : Type := mk_world {
  se : SettlementEngine;
  ticks : nat
}.

Definition M (A : Type) : Type := World -> A * World.

#[local] Instance M_ret : MRet M := fun A (a : A) w => (a, w).
#[local] Instance M_bind : MBind M :=
  fun A B (k : A -> M B) (m : M A) w => let (a, w') := m w in k a w'.

Definition time_Now : M time_Time :=
  fun w => (wall (ticks w), mk_world (se w) (S (ticks w))).

Definition get_engine : M SettlementEngine := fun w => (se w, w).
Definition put_engine (e : SettlementEngine) : M unit :=
  fun w => (tt, mk_world e (ticks w)).

Definition set_accounts (e : SettlementEngine) (m : gmap string Account.t)
  : SettlementEngine :=
  mk_engine m (transactions e) (settlementChan e) (stopChan_closed e)
            (batchSize e) (batchTimeout e).

Definition set_transactions (e : SettlementEngine) (l : list Transaction.t)
  : SettlementEngine :=
  mk_engine (accounts e) l (settlementChan e) (stopChan_closed e)
            (batchSize e) (batchTimeout e).

Definition set_settlementChan (e : SettlementEngine) (c : chan Transaction.t)
  : SettlementEngine :=
  mk_engine (accounts e) (transactions e) c (stopChan_closed e)
            (batchSize e) (batchTimeout e).

Definition set_stopChan_closed (e : SettlementEngine) (b : bool)
  : SettlementEngine :=
  mk_engine (accounts e) (transactions e) (settlementChan e) b
            (batchSize e) (batchTimeout e).

(** [se.accounts[userID]] and a write through the account pointer. *)
Definition lookup_account (userID : string) : M (option Account.t) :=
  fun w => (accounts (se w) !! userID, w).

Definition store_account (userID : string) (a : Account.t) : M unit :=
  fun w => (tt, mk_world (set_accounts (se w) (<[userID := a]> (accounts (se w))))
                         (ticks w)).

(** ** NewSettlementEngine *)

Definition NewSettlementEngine : SettlementEngine :=
  mk_engine ∅ [] (mk_chan [] 1000%nat) false 100 (5 * time_Second).

(** ** CreateAccount *)

Definition CreateAccount (userID : string) (initialBalance : float) : M error :=
  found ← lookup_account userID;
  match found with
  | Some _ => mret (Some (DuplicateAccount userID))
  | None =>
      now ← time_Now;
      store_account userID
        (Account.mk userID initialBalance float_zero 1 now);;
      mret None
  end.

(** ** SubmitTransaction

    The method writes [ID], [Timestamp] and [Status] into the caller's
    transaction, appends a copy of it to the log and sends the pointer on
    the channel without blocking.  It returns the error together with the
    caller's transaction as the call leaves it.  Here the call is taken as
    one step on a transaction that nobody writes to afterwards, so that the
    channel can hold the stamped value; the section on shared objects below
    models the pointer that the channel really holds and the release of the
    mutex between the append and the send. *)

Definition stamp (tx : Transaction.t) (id : string) (ts : time_Time)
  : Transaction.t :=
  Transaction.mk id (Transaction.UserID tx) (Transaction.Amount tx)
                 (Transaction.Type_ tx) "pending" ts
                 (Transaction.Description tx).

Definition append_transaction (tx : Transaction.t) : M unit :=
  fun w => (tt, mk_world (set_transactions (se w) (transactions (se w) ++ [tx]))
                         (ticks w)).

(** [select { case ch <- tx: ...; default: ... }]: the send goes through
    when the buffer has room. *)
Definition try_send (tx : Transaction.t) : M bool :=
  fun w =>
    let c := settlementChan (se w) in
    if (length (chan_buf c) <? chan_cap c)%nat
    then (true, mk_world (set_settlementChan (se w)
                            (mk_chan (chan_buf c ++ [tx]) (chan_cap c)))
                         (ticks w))
    else (false, w).

Definition SubmitTransaction (tx : Transaction.t) : M (error * Transaction.t) :=
  if bool_decide (Transaction.UserID tx = "")
     || PrimFloat.leb (Transaction.Amount tx) 0
  then mret (Some InvalidTransaction, tx)
  else
    t1 ← time_Now;
    t2 ← time_Now;
    let tx' := stamp tx ("tx_" +:+ pretty t1) t2 in
    append_transaction tx';;
    sent ← try_send tx';
    if (sent : bool) then mret (None : error, tx') else mret (Some QueueFull, tx').

(** ** The settlement of one transaction

    The body of the loop of [batchProcessTransactions]; [processTransaction]
    has the same body under a lock of its own. *)

Definition commit (userID : string) (account : Account.t) (newBalance : float)
  : M unit :=
  now ← time_Now;
  store_account userID
    (Account.mk (Account.UserID account) newBalance
                (Account.FrozenAmount account)
                (int64_wrap (Account.Version account + 1)) now).

Definition settle (tx : Transaction.t) : M SettlementResult.t :=
  found ← lookup_account (Transaction.UserID tx);
  match found with
  | None =>
      now ← time_Now;
      mret (SettlementResult.mk (Transaction.ID tx) false float_zero
                                SettleAccountNotFound now)
  | Some account =>
      let '(newBalance, success, errorMsg) :=
        if bool_decide (Transaction.Type_ tx = "credit") then
          ((Account.Balance account + Transaction.Amount tx)%float,
           true, string_zero)
        else if bool_decide (Transaction.Type_ tx = "debit") then
          if float_ge (Account.Balance account) (Transaction.Amount tx)
          then ((Account.Balance account - Transaction.Amount tx)%float,
                true, string_zero)
          else (Account.Balance account, false, InsufficientBalance)
        else (Account.Balance account, false, InvalidTransactionKind) in
      (if success
       then commit (Transaction.UserID tx) account newBalance
       else mret tt);;
      now ← time_Now;
      mret (SettlementResult.mk (Transaction.ID tx) success newBalance
                                errorMsg now)
  end.

Definition processTransaction (tx : Transaction.t) : M SettlementResult.t :=
  settle tx.

(** ** batchProcessTransactions *)

Fixpoint batchProcessTransactions (txs : list Transaction.t)
  : M (list SettlementResult.t) :=
  match txs with
  | [] => mret []
  | tx :: rest =>
      r ← settle tx;
      rs ← batchProcessTransactions rest;
      mret (r :: rs)
  end.

(** ** processBatch: settles the batch and counts the outcomes (the counts
    are only printed). *)

Definition count_results (results : list SettlementResult.t) : Z * Z :=
  fold_left (fun '(successCount, failCount) result =>
               if SettlementResult.Success result
               then (successCount + 1, failCount)
               else (successCount, failCount + 1))
            results (0, 0).

Definition processBatch (batch : list Transaction.t) : M unit :=
  results ← batchProcessTransactions batch;
  let _ := count_results results in
  mret tt.

(** ** processSettlementQueue

    The worker's local variables are the batch buffer and the flush timer.
    Real time is not part of the model: a timer is the duration it was last
    armed with and the number of [Reset] calls it has seen, and which
    [case] of the [select] fires in an iteration is an input. *)

Record time_Timer : Type := mk_timer {
  timer_d : time_Duration;
  timer_resets : nat
}.

Definition time_NewTimer (d : time_Duration) : time_Timer := mk_timer d 0.
Definition timer_Reset (t : time_Timer) (d : time_Duration) : time_Timer :=
  mk_timer d (S (timer_resets t)).

Record Worker : Type := mk_worker {
  batch : list Transaction.t;
  timer : time_Timer
}.

(** The statements before the loop.  [make] panics on a negative
    capacity: [None].  It also panics on a capacity too large to allocate,
    a limit of the platform that is not modelled: the model starts a worker
    in some states in which the program would panic. *)
Definition processSettlementQueue_init (e : SettlementEngine) : option Worker :=
  if batchSize e <? 0 then None
  else Some (mk_worker [] (time_NewTimer (batchTimeout e))).

Inductive select_case : Type :=
| case_settlementChan
| case_timer_C
| case_stopChan.

(** What one iteration of the [for] loop leaves behind: the loop goes on
    with new local variables, or the function returns. *)
Inductive loop_outcome : Type :=
| loop_continue (wk : Worker)
| loop_return.

(** [tx := <-se.settlementChan], possible when the buffer is not empty. *)
Definition try_recv : M (option Transaction.t) :=
  fun w =>
    let c := settlementChan (se w) in
    match chan_buf c with
    | [] => (None, w)
    | tx :: rest =>
        (Some tx, mk_world (set_settlementChan (se w) (mk_chan rest (chan_cap c)))
                           (ticks w))
    end.

(** One iteration of the loop through the given case; [None] when that
    case is not ready (nothing to receive, or [stopChan] still open). *)
Definition loop_iteration (c : select_case) (wk : Worker)
  : M (option loop_outcome) :=
  e ← get_engine;
  match c with
  | case_settlementChan =>
      got ← try_recv;
      match got with
      | None => mret None
      | Some tx =>
          let batch1 := batch wk ++ [tx] in
          if Z.of_nat (length batch1) >=? batchSize e then
            processBatch batch1;;
            mret (Some (loop_continue
                          (mk_worker [] (timer_Reset (timer wk) (batchTimeout e)))))
          else
            mret (Some (loop_continue (mk_worker batch1 (timer wk))))
      end
  | case_timer_C =>
      batch1 ← (if (0 <? length (batch wk))%nat
                then processBatch (batch wk);; mret []
                else mret (batch wk));
      mret (Some (loop_continue
                    (mk_worker batch1 (timer_Reset (timer wk) (batchTimeout e)))))
  | case_stopChan =>
      if stopChan_closed e then
        (if (0 <? length (batch wk))%nat
         then processBatch (batch wk)
         else mret tt);;
        mret (Some loop_return)
      else mret None
  end.

(** ** Stop: [close(se.stopChan)]; closing a closed channel panics
    ([None]). *)
Definition Stop : M (option unit) :=
  e ← get_engine;
  if stopChan_closed e then mret None
  else put_engine (set_stopChan_closed e true);; mret (Some tt).

(** ** GetAccount *)

Definition GetAccount (userID : string) : M (option Account.t * error) :=
  found ← lookup_account userID;
  match found with
  | None => mret (None, Some (AccountNotFound userID))
  | Some account => mret (Some account, None)
  end.

(** ** GetTransactionStats *)

Definition stats_incr (key : string) (stats : gmap string Z) : gmap string Z :=
  <[key := default 0 (stats !! key) + 1]> stats.

Definition GetTransactionStats : M (gmap string Z) :=
  e ← get_engine;
  let stats : gmap string Z :=
    <["total_accounts" := Z.of_nat (size (accounts e))]>
    (<["total_transactions" := Z.of_nat (length (transactions e))]>
    (<["pending_transactions" := 0]>
    (<["processed_transactions" := 0]> ∅))) in
  mret (fold_left
          (fun stats tx =>
             if bool_decide (Transaction.Status tx = "pending")
             then stats_incr "pending_transactions" stats
             else stats_incr "processed_transactions" stats)
          (transactions e) stats).

(** ** FreezeAmount and UnfreezeAmount *)

Definition FreezeAmount (userID : string) (amount : float) : M error :=
  found ← lookup_account userID;
  match found with
  | None => mret (Some (AccountNotFound userID))
  | Some account =>
      if PrimFloat.ltb (Account.Balance account) amount
      then mret (Some FreezeInsufficientBalance)
      else
        now ← time_Now;
        store_account userID
          (Account.mk (Account.UserID account)
                      (Account.Balance account - amount)%float
                      (Account.FrozenAmount account + amount)%float
                      (int64_wrap (Account.Version account + 1)) now);;
        mret None
  end.

Definition UnfreezeAmount (userID : string) (amount : float) : M error :=
  found ← lookup_account userID;
  match found with
  | None => mret (Some (AccountNotFound userID))
  | Some account =>
      if PrimFloat.ltb (Account.FrozenAmount account) amount
      then mret (Some InsufficientFrozenFunds)
      else
        now ← time_Now;
        store_account userID
          (Account.mk (Account.UserID account)
                      (Account.Balance account + amount)%float
                      (Account.FrozenAmount account - amount)%float
                      (int64_wrap (Account.Version account + 1)) now);;
        mret None
  end.

(** ** The engine and its worker as one system

    [Start] launches [processSettlementQueue] as a goroutine.  The system
    is the engine's state together with the state of that worker; a call
    sequence interleaves the callers' method calls with the iterations of
    the worker's loop.  The system has one worker, as the design has:
    [Start] while a worker runs is outside the model. *)

Inductive worker_state : Type :=
| not_started
| running (wk : Worker)
| returned.

Record System : Type := mk_system {
  world : World;
  worker : worker_state
}.

Inductive Call : Type :=
| CallCreateAccount (userID : string) (initialBalance : float)
| CallSubmitTransaction (tx : Transaction.t)
| CallFreezeAmount (userID : string) (amount : float)
| CallUnfreezeAmount (userID : string) (amount : float)
| CallSetBatchSize (n : Z)
| CallStart
| CallStop
| CallSelect (c : select_case).

(** [None]: the call panics, or cannot happen in this state. *)
Definition exec (s : System) (c : Call) : option System :=
  match c with
  | CallCreateAccount userID initialBalance =>
      Some (mk_system (CreateAccount userID initialBalance (world s)).2 (worker s))
  | CallSubmitTransaction tx =>
      Some (mk_system (SubmitTransaction tx (world s)).2 (worker s))
  | CallFreezeAmount userID amount =>
      Some (mk_system (FreezeAmount userID amount (world s)).2 (worker s))
  | CallUnfreezeAmount userID amount =>
      Some (mk_system (UnfreezeAmount userID amount (world s)).2 (worker s))
  | CallSetBatchSize n =>
      let e := se (world s) in
      Some (mk_system
              (mk_world (mk_engine (accounts e) (transactions e) (settlementChan e)
                                   (stopChan_closed e) n (batchTimeout e))
                        (ticks (world s)))
              (worker s))
  | CallStart =>
      match worker s with
      | running _ => None
      | _ =>
          wk ← processSettlementQueue_init (se (world s));
          Some (mk_system (world s) (running wk))
      end
  | CallStop =>
      let '(r, w) := Stop (world s) in
      _ ← r; Some (mk_system w (worker s))
  | CallSelect c =>
      match worker s with
      | running wk =>
          let '(r, w) := loop_iteration c wk (world s) in
          out ← r;
          Some (mk_system w match out with
                            | loop_continue wk' => running wk'
                            | loop_return => returned
                            end)
      | _ => None
      end
  end.

Fixpoint run (calls : list Call) (s : System) : option System :=
  match calls with
  | [] => Some s
  | c :: rest => s' ← exec s c; run rest s'
  end.

Definition init_system : System :=
  mk_system (mk_world NewSettlementEngine 0) not_started.

(** ** Transactions as objects shared with the callers

    [SubmitTransaction] takes a pointer.  It appends a copy of the object
    to the log, but what it sends on the channel is the pointer itself, and
    the worker reads the object only when it settles the batch.  The caller
    keeps the object: what it writes to it after the submission, and what
    a second submission of the same object writes, is what the worker
    settles.  [SubmitTransaction] also releases the mutex after the append
    and before the send, so other calls can come between the two.

    The system above takes each submission as one step on an object that
    nobody touches afterwards.  The system here drops both assumptions: the
    callers' objects live in a heap, a pointer is an index into it, the
    channel and the worker's buffer hold pointers (they take the place of
    the channel of the engine record), a caller can rewrite its objects
    whenever it likes, and a submission is two steps. *)

Definition ptr : Type := nat.

Inductive shared_worker : Type :=
| sw_not_started
| sw_running (batch : list ptr) (timer : time_Timer)
| sw_returned.

Record Shared : Type := mk_shared {
  sh_world : World;
  sh_heap : list Transaction.t;
  sh_chan : chan ptr;
  sh_sending : list ptr;
  sh_worker : shared_worker
}.

Definition sh_set_world (s : Shared) (w : World) : Shared :=
  mk_shared w (sh_heap s) (sh_chan s) (sh_sending s) (sh_worker s).

(** Reading the objects a list of pointers refers to; [None] when one of
    them does not point to an object. *)
Definition deref (heap : list Transaction.t) (ps : list ptr)
  : option (list Transaction.t) :=
  mapM (fun p => heap !! p) ps.

Fixpoint remove_first (p : ptr) (ps : list ptr) : list ptr :=
  match ps with
  | [] => []
  | q :: rest => if bool_decide (q = p) then rest else q :: remove_first p rest
  end.

(** [SubmitTransaction] up to the release of the mutex: the validation, the
    three writes to the caller's object and the append of a copy to the
    log.  The pointer is then waiting to be sent. *)
Definition shared_submit_begin (p : ptr) (s : Shared) : option (error * Shared) :=
  tx ← sh_heap s !! p;
  if bool_decide (Transaction.UserID tx = "")
     || PrimFloat.leb (Transaction.Amount tx) 0
  then Some (Some InvalidTransaction, s)
  else
    let '(t1, w1) := time_Now (sh_world s) in
    let '(t2, w2) := time_Now w1 in
    let tx' := stamp tx ("tx_" +:+ pretty t1) t2 in
    let '(_, w3) := append_transaction tx' w2 in
    Some (None,
          mk_shared w3 (<[p := tx']> (sh_heap s)) (sh_chan s)
                    (sh_sending s ++ [p]) (sh_worker s)).

(** The rest of [SubmitTransaction]: the non-blocking send of the pointer.
    [None] when no submission of this pointer is waiting to send. *)
Definition shared_submit_send (p : ptr) (s : Shared) : option (error * Shared) :=
  if bool_decide (p ∈ sh_sending s) then
    let c := sh_chan s in
    if (length (chan_buf c) <? chan_cap c)%nat
    then Some (None,
               mk_shared (sh_world s) (sh_heap s)
                         (mk_chan (chan_buf c ++ [p]) (chan_cap c))
                         (remove_first p (sh_sending s)) (sh_worker s))
    else Some (Some QueueFull,
               mk_shared (sh_world s) (sh_heap s) c
                         (remove_first p (sh_sending s)) (sh_worker s))
  else None.

(** [processBatch] on a batch of pointers: the objects are read when the
    batch is settled.  [None]: a pointer without an object. *)
Definition shared_processBatch (ps : list ptr) (s : Shared) : option World :=
  txs ← deref (sh_heap s) ps;
  Some (processBatch txs (sh_world s)).2.

(** One iteration of the loop of [processSettlementQueue] with a buffer of
    pointers; [None] when the case is not ready, or on a pointer without an
    object. *)
Definition shared_loop_iteration
           (c : select_case) (batch : list ptr) (timer : time_Timer) (s : Shared)
  : option Shared :=
  let e := se (sh_world s) in
  match c with
  | case_settlementChan =>
      match chan_buf (sh_chan s) with
      | [] => None
      | p :: rest =>
          let batch1 := batch ++ [p] in
          let c' := mk_chan rest (chan_cap (sh_chan s)) in
          if Z.of_nat (length batch1) >=? batchSize e then
            w' ← shared_processBatch batch1 s;
            Some (mk_shared w' (sh_heap s) c' (sh_sending s)
                            (sw_running [] (timer_Reset timer (batchTimeout e))))
          else
            Some (mk_shared (sh_world s) (sh_heap s) c' (sh_sending s)
                            (sw_running batch1 timer))
      end
  | case_timer_C =>
      if (0 <? length batch)%nat then
        w' ← shared_processBatch batch s;
        Some (mk_shared w' (sh_heap s) (sh_chan s) (sh_sending s)
                        (sw_running [] (timer_Reset timer (batchTimeout e))))
      else
        Some (mk_shared (sh_world s) (sh_heap s) (sh_chan s) (sh_sending s)
                        (sw_running batch (timer_Reset timer (batchTimeout e))))
  | case_stopChan =>
      if stopChan_closed e then
        if (0 <? length batch)%nat then
          w' ← shared_processBatch batch s;
          Some (mk_shared w' (sh_heap s) (sh_chan s) (sh_sending s) sw_returned)
        else
          Some (mk_shared (sh_world s) (sh_heap s) (sh_chan s) (sh_sending s)
                          sw_returned)
      else None
  end.

Inductive SCall : Type :=
| SNewTransaction (tx : Transaction.t)
| SWriteTransaction (p : ptr) (tx : Transaction.t)
| SWriteAccount (userID : string) (a : Account.t)
| SCreateAccount (userID : string) (initialBalance : float)
| SSubmitBegin (p : ptr)
| SSubmitSend (p : ptr)
| SFreezeAmount (userID : string) (amount : float)
| SUnfreezeAmount (userID : string) (amount : float)
| SSetBatchSize (n : Z)
| SStart
| SStop
| SSelect (c : select_case).

(** [SNewTransaction]: a caller makes a transaction object; its pointer is
    the next index.  [SWriteTransaction]: a caller assigns to the fields of
    one of its objects.  [SWriteAccount]: a caller assigns to the fields of
    an account through the pointer that [GetAccount] has returned for this
    user, which is the pointer stored in the map.  [None]: the call panics,
    or cannot happen in this state. *)
Definition shared_exec (s : Shared) (c : SCall) : option Shared :=
  match c with
  | SNewTransaction tx =>
      Some (mk_shared (sh_world s) (sh_heap s ++ [tx]) (sh_chan s)
                      (sh_sending s) (sh_worker s))
  | SWriteTransaction p tx =>
      if (p <? length (sh_heap s))%nat
      then Some (mk_shared (sh_world s) (<[p := tx]> (sh_heap s)) (sh_chan s)
                           (sh_sending s) (sh_worker s))
      else None
  | SWriteAccount userID a =>
      match (GetAccount userID (sh_world s)).1.1 with
      | Some _ =>
          Some (sh_set_world s
                  (mk_world (set_accounts (se (sh_world s))
                               (<[userID := a]> (accounts (se (sh_world s)))))
                            (ticks (sh_world s))))
      | None => None
      end
  | SCreateAccount userID initialBalance =>
      Some (sh_set_world s (CreateAccount userID initialBalance (sh_world s)).2)
  | SSubmitBegin p => snd <$> shared_submit_begin p s
  | SSubmitSend p => snd <$> shared_submit_send p s
  | SFreezeAmount userID amount =>
      Some (sh_set_world s (FreezeAmount userID amount (sh_world s)).2)
  | SUnfreezeAmount userID amount =>
      Some (sh_set_world s (UnfreezeAmount userID amount (sh_world s)).2)
  | SSetBatchSize n =>
      let e := se (sh_world s) in
      Some (sh_set_world s
              (mk_world (mk_engine (accounts e) (transactions e) (settlementChan e)
                                   (stopChan_closed e) n (batchTimeout e))
                        (ticks (sh_world s))))
  | SStart =>
      match sh_worker s with
      | sw_running _ _ => None
      | _ =>
          wk ← processSettlementQueue_init (se (sh_world s));
          Some (mk_shared (sh_world s) (sh_heap s) (sh_chan s) (sh_sending s)
                          (sw_running [] (timer wk)))
      end
  | SStop =>
      let '(r, w) := Stop (sh_world s) in
      _ ← r; Some (sh_set_world s w)
  | SSelect c =>
      match sh_worker s with
      | sw_running batch timer => shared_loop_iteration c batch timer s
      | _ => None
      end
  end.

Fixpoint shared_run (calls : list SCall) (s : Shared) : option Shared :=
  match calls with
  | [] => Some s
  | c :: rest => s' ← shared_exec s c; shared_run rest s'
  end.

Definition init_shared : Shared :=
  mk_shared (mk_world NewSettlementEngine 0) [] (mk_chan [] 1000%nat) []
            sw_not_started.

(** ** Settling a list of transactions one after the other

    The reference against which [batchProcessTransactions] is compared:
    start from the given state, settle the first transaction in it, the
    second in the state the first has left, and so on, collecting the
    results in order. *)
Definition settle_in_order (txs : list Transaction.t) (w : World)
  : list SettlementResult.t * World :=
  fold_left (fun acc tx => (acc.1 ++ [(settle tx acc.2).1], (settle tx acc.2).2))
            txs ([], w).

(** ** Predicates and states the properties are stated with *)










Definition is_pending (tx : Transaction.t) : Prop :=
  Transaction.Status tx = "pending".

(** The state after a successful settlement: the account with its new
    balance, version and timestamp, and two readings of the clock taken. *)
Definition committed (w : World) (userID : string) (account : Account.t)
           (newBalance : float) : World :=
  mk_world
    (set_accounts (se w)
       (<[userID := Account.mk (Account.UserID account) newBalance
                      (Account.FrozenAmount account)
                      (int64_wrap (Account.Version account + 1))
                      (wall (ticks w))]> (accounts (se w))))
    (S (S (ticks w))).

(** The five cases cover every transaction and every state. *)
Inductive settle_cases (tx : Transaction.t) (w : World) : Prop :=
| sc_absent :
    accounts (se w) !! Transaction.UserID tx = None -> settle_cases tx w
| sc_credit account :
    accounts (se w) !! Transaction.UserID tx = Some account ->
    Transaction.Type_ tx = "credit" -> settle_cases tx w
| sc_debit_ok account :
    accounts (se w) !! Transaction.UserID tx = Some account ->
    Transaction.Type_ tx = "debit" ->
    float_ge (Account.Balance account) (Transaction.Amount tx) = true ->
    settle_cases tx w
| sc_debit_short account :
    accounts (se w) !! Transaction.UserID tx = Some account ->
    Transaction.Type_ tx = "debit" ->
    float_ge (Account.Balance account) (Transaction.Amount tx) = false ->
    settle_cases tx w
| sc_other_kind account :
    accounts (se w) !! Transaction.UserID tx = Some account ->
    Transaction.Type_ tx <> "credit" ->
    Transaction.Type_ tx <> "debit" ->
    settle_cases tx w.

(** The state once the worker has taken the oldest transaction out of the
    channel. *)
Definition after_recv (w : World) (rest : list Transaction.t) : World :=
  mk_world (set_settlementChan (se w)
              (mk_chan rest (chan_cap (settlementChan (se w)))))
           (ticks w).

(** * Properties *)

Ltac run_monad :=
  unfold mbind, mret, M_bind, M_ret, lookup_account, store_account,
    time_Now, get_engine, put_engine, append_transaction; simpl.


(** ** Facts about binary64

    [Prim2SF] maps a [float] to its specification, a sign, a mantissa and
    an exponent; the operations on [float] are specified on it.  The sign of
    a sum or of a difference is read off the integer that is rounded. *)



(** Rounding a non-negative integer mantissa gives a non-negative float. *)









(** The mantissas of two non-negative floats in the order of the floats. *)








(** ** The settlement of one transaction, case by case *)

Lemma settle_absent (tx : Transaction.t) (w : World) :
  accounts (se w) !! Transaction.UserID tx = None ->
  settle tx w =
    (SettlementResult.mk (Transaction.ID tx) false float_zero
                         SettleAccountNotFound (wall (ticks w)),
     mk_world (se w) (S (ticks w))).
Proof. intros H. unfold settle. run_monad. by rewrite H. Qed.

Lemma settle_credit (tx : Transaction.t) (w : World) (account : Account.t) :
  accounts (se w) !! Transaction.UserID tx = Some account ->
  Transaction.Type_ tx = "credit" ->
  settle tx w =
    (SettlementResult.mk (Transaction.ID tx) true
       (Account.Balance account + Transaction.Amount tx)%float
       string_zero (wall (S (ticks w))),
     committed w (Transaction.UserID tx) account
       (Account.Balance account + Transaction.Amount tx)%float).
Proof.
  intros H Hk. unfold settle, commit. run_monad. rewrite H, Hk. reflexivity.
Qed.

Lemma settle_debit_ok (tx : Transaction.t) (w : World) (account : Account.t) :
  accounts (se w) !! Transaction.UserID tx = Some account ->
  Transaction.Type_ tx = "debit" ->
  float_ge (Account.Balance account) (Transaction.Amount tx) = true ->
  settle tx w =
    (SettlementResult.mk (Transaction.ID tx) true
       (Account.Balance account - Transaction.Amount tx)%float
       string_zero (wall (S (ticks w))),
     committed w (Transaction.UserID tx) account
       (Account.Balance account - Transaction.Amount tx)%float).
Proof.
  intros H Hk Hge. unfold settle, commit. run_monad.
  rewrite H, Hk, Hge. reflexivity.
Qed.

Lemma settle_debit_short (tx : Transaction.t) (w : World) (account : Account.t) :
  accounts (se w) !! Transaction.UserID tx = Some account ->
  Transaction.Type_ tx = "debit" ->
  float_ge (Account.Balance account) (Transaction.Amount tx) = false ->
  settle tx w =
    (SettlementResult.mk (Transaction.ID tx) false (Account.Balance account)
                         InsufficientBalance (wall (ticks w)),
     mk_world (se w) (S (ticks w))).
Proof.
  intros H Hk Hge. unfold settle, commit. run_monad.
  rewrite H, Hk, Hge. reflexivity.
Qed.

Lemma settle_other_kind (tx : Transaction.t) (w : World) (account : Account.t) :
  accounts (se w) !! Transaction.UserID tx = Some account ->
  Transaction.Type_ tx <> "credit" ->
  Transaction.Type_ tx <> "debit" ->
  settle tx w =
    (SettlementResult.mk (Transaction.ID tx) false (Account.Balance account)
                         InvalidTransactionKind (wall (ticks w)),
     mk_world (se w) (S (ticks w))).
Proof.
  intros H Hc Hd. unfold settle, commit. run_monad. rewrite H.
  rewrite !bool_decide_eq_false_2 by assumption. reflexivity.
Qed.

Lemma settle_cases_total (tx : Transaction.t) (w : World) : settle_cases tx w.
Proof.
  destruct (accounts (se w) !! Transaction.UserID tx) as [account|] eqn:H.
  - destruct (decide (Transaction.Type_ tx = "credit")) as [Hc|Hc].
    { by eapply sc_credit. }
    destruct (decide (Transaction.Type_ tx = "debit")) as [Hd|Hd].
    + destruct (float_ge (Account.Balance account) (Transaction.Amount tx)) eqn:Hge.
      * by eapply sc_debit_ok.
      * by eapply sc_debit_short.
    + by eapply sc_other_kind.
  - by apply sc_absent.
Qed.

Lemma committed_lookup (w : World) (userID : string) (account : Account.t)
      (newBalance : float) :
  accounts (se (committed w userID account newBalance)) !! userID =
    Some (Account.mk (Account.UserID account) newBalance
                     (Account.FrozenAmount account)
                     (int64_wrap (Account.Version account + 1))
                     (wall (ticks w))).
Proof. unfold committed. simpl. apply lookup_insert_eq. Qed.

Lemma committed_lookup_ne (w : World) (userID other : string)
      (account : Account.t) (newBalance : float) :
  userID <> other ->
  accounts (se (committed w userID account newBalance)) !! other =
    accounts (se w) !! other.
Proof. intros Hne. unfold committed. simpl. by apply lookup_insert_ne. Qed.

Lemma int64_wrap_succ (v : Z) :
  int64_min <= v < int64_max -> int64_wrap (v + 1) = v + 1.
Proof.
  unfold int64_min, int64_max, int64_wrap. intros Hv.
  rewrite Z.mod_small; lia.
Qed.

(** ** Debits *)

(** C3. A debit settled against an existing account succeeds if and only
    if its amount is at most the balance the account has when the
    transaction is processed.  On success the account's balance becomes the
    old balance minus the amount.  On failure the engine (hence the
    balance) is unchanged and the result has [Success = false], the message
    [InsufficientBalance] and the old balance as [NewBalance]. *)
Theorem debit_settlement (tx : Transaction.t) (w : World) (account : Account.t) :
  accounts (se w) !! Transaction.UserID tx = Some account ->
  Transaction.Type_ tx = "debit" ->
  let r := (settle tx w).1 in
  let w' := (settle tx w).2 in
  (SettlementResult.Success r = true <->
   PrimFloat.leb (Transaction.Amount tx) (Account.Balance account) = true) /\
  (SettlementResult.Success r = true ->
   Account.Balance <$> accounts (se w') !! Transaction.UserID tx =
     Some (Account.Balance account - Transaction.Amount tx)%float) /\
  (SettlementResult.Success r = false ->
   se w' = se w /\
   SettlementResult.ErrorMessage r = InsufficientBalance /\
   SettlementResult.NewBalance r = Account.Balance account).
Proof.
  intros Hacc Hk r w'. subst r w'.
  destruct (float_ge (Account.Balance account) (Transaction.Amount tx)) eqn:Hge.
  - rewrite (settle_debit_ok tx w account Hacc Hk Hge). cbn [fst snd].
    rewrite committed_lookup. simpl. unfold float_ge in Hge.
    repeat split; try done.
  - rewrite (settle_debit_short tx w account Hacc Hk Hge). simpl.
    unfold float_ge in Hge. rewrite Hge.
    repeat split; try done.
Qed.

(** ** Credits *)

(** C7. A credit settled against an existing account always succeeds; the
    account's balance afterwards is the balance before plus the amount
    ([float64] addition), and the result reports that new balance. *)
Theorem credit_settlement (tx : Transaction.t) (w : World) (account : Account.t) :
  accounts (se w) !! Transaction.UserID tx = Some account ->
  Transaction.Type_ tx = "credit" ->
  let r := (settle tx w).1 in
  let w' := (settle tx w).2 in
  SettlementResult.Success r = true /\
  Account.Balance <$> accounts (se w') !! Transaction.UserID tx =
    Some (Account.Balance account + Transaction.Amount tx)%float /\
  SettlementResult.NewBalance r =
    (Account.Balance account + Transaction.Amount tx)%float.
Proof.
  intros Hacc Hk r w'. subst r w'.
  rewrite (settle_credit tx w account Hacc Hk). cbn [fst snd].
  rewrite committed_lookup. done.
Qed.

(** ** Failed and successful settlements *)

(** C5. A transaction whose account is absent is settled as a failure
    with [AccountNotFound]; one whose kind is neither credit nor debit, as
    a failure with [InvalidTransactionKind].  A failed settlement leaves
    the whole engine, hence every field of every account, unchanged.  A
    successful settlement adds one to the version of the account
    ([int64] increment: plus one below the largest [int64]), sets its
    timestamp to the clock's reading, and touches no other account. *)
Theorem settlement_outcomes (tx : Transaction.t) (w : World) :
  let r := (settle tx w).1 in
  let w' := (settle tx w).2 in
  (accounts (se w) !! Transaction.UserID tx = None ->
   SettlementResult.Success r = false /\
   SettlementResult.ErrorMessage r = SettleAccountNotFound) /\
  (is_Some (accounts (se w) !! Transaction.UserID tx) ->
   Transaction.Type_ tx <> "credit" -> Transaction.Type_ tx <> "debit" ->
   SettlementResult.Success r = false /\
   SettlementResult.ErrorMessage r = InvalidTransactionKind) /\
  (SettlementResult.Success r = false ->
   se w' = se w /\
   (SettlementResult.ErrorMessage r = SettleAccountNotFound \/
    SettlementResult.ErrorMessage r = InsufficientBalance \/
    SettlementResult.ErrorMessage r = InvalidTransactionKind)) /\
  (SettlementResult.Success r = true ->
   exists account account',
     accounts (se w) !! Transaction.UserID tx = Some account /\
     accounts (se w') !! Transaction.UserID tx = Some account' /\
     Account.Version account' = int64_wrap (Account.Version account + 1) /\
     (int64_min <= Account.Version account < int64_max ->
      Account.Version account' = Account.Version account + 1) /\
     Account.UpdatedAt account' = wall (ticks w) /\
     Account.UserID account' = Account.UserID account /\
     Account.FrozenAmount account' = Account.FrozenAmount account /\
     forall other, other <> Transaction.UserID tx ->
                   accounts (se w') !! other = accounts (se w) !! other).
Proof.
  intros r w'. subst r w'.
  destruct (settle_cases_total tx w) as [H|a H Hk|a H Hk Hge|a H Hk Hge|a H Hc Hd].
  - rewrite (settle_absent tx w H). simpl. split_and!.
    + done.
    + intros [? ?]. congruence.
    + auto.
    + done.
  - rewrite (settle_credit tx w a H Hk). cbn [fst snd SettlementResult.Success].
    split_and!; [congruence | congruence | done |].
    intros _. eexists a, _. rewrite committed_lookup.
    split_and!; try done.
    + simpl. apply int64_wrap_succ.
    + intros other Hne. by apply committed_lookup_ne.
  - rewrite (settle_debit_ok tx w a H Hk Hge).
    cbn [fst snd SettlementResult.Success].
    split_and!; [congruence | congruence | done |].
    intros _. eexists a, _. rewrite committed_lookup.
    split_and!; try done.
    + simpl. apply int64_wrap_succ.
    + intros other Hne. by apply committed_lookup_ne.
  - rewrite (settle_debit_short tx w a H Hk Hge). simpl.
    split_and!; [congruence | congruence | auto | done].
  - rewrite (settle_other_kind tx w a H Hc Hd). simpl.
    split_and!; [congruence | done | auto | done].
Qed.

(** ** CreateAccount *)

(** C9. [CreateAccount] does not look at the initial balance.  For a user
    identifier that is not in the ledger it succeeds, whatever the initial
    balance, and stores an account with that balance, frozen amount 0 and
    version 1.  Its only failure is [DuplicateAccount], exactly when the
    identifier is in the ledger, and then the state is unchanged. *)
Theorem create_account_spec (userID : string) (initialBalance : float) (w : World) :
  let err := (CreateAccount userID initialBalance w).1 in
  let w' := (CreateAccount userID initialBalance w).2 in
  (accounts (se w) !! userID = None ->
   err = None /\
   accounts (se w') !! userID =
     Some (Account.mk userID initialBalance 0%float 1 (wall (ticks w))) /\
   forall other, other <> userID ->
                 accounts (se w') !! other = accounts (se w) !! other) /\
  (is_Some (accounts (se w) !! userID) ->
   err = Some (DuplicateAccount userID) /\ w' = w) /\
  (err <> None ->
   err = Some (DuplicateAccount userID) /\
   is_Some (accounts (se w) !! userID)).
Proof.
  intros err w'. subst err w'. unfold CreateAccount. run_monad.
  destruct (accounts (se w) !! userID) as [a|] eqn:H; simpl.
  - split_and!; [done | done | eauto].
  - split_and!.
    + intros _. split_and!; [done | apply lookup_insert_eq |].
      intros other Hne. by apply lookup_insert_ne.
    + intros [? ?]. done.
    + done.
Qed.

(** ** batchProcessTransactions *)

Lemma batch_cons (tx : Transaction.t) (rest : list Transaction.t) (w : World) :
  batchProcessTransactions (tx :: rest) w =
    ((settle tx w).1 :: (batchProcessTransactions rest (settle tx w).2).1,
     (batchProcessTransactions rest (settle tx w).2).2).
Proof.
  simpl. run_monad. destruct (settle tx w) as [r w1]. simpl.
  by destruct (batchProcessTransactions rest w1).
Qed.

Lemma batch_app (pre post : list Transaction.t) (w : World) :
  batchProcessTransactions (pre ++ post) w =
    ((batchProcessTransactions pre w).1 ++
       (batchProcessTransactions post (batchProcessTransactions pre w).2).1,
     (batchProcessTransactions post (batchProcessTransactions pre w).2).2).
Proof.
  revert w. induction pre as [|tx pre IH]; intros w.
  - simpl. by destruct (batchProcessTransactions post w).
  - rewrite <- app_comm_cons, !batch_cons, IH. reflexivity.
Qed.

Lemma batch_length (txs : list Transaction.t) (w : World) :
  length (batchProcessTransactions txs w).1 = length txs.
Proof.
  revert w. induction txs as [|tx txs IH]; intros w; [done|].
  rewrite batch_cons. simpl. by rewrite IH.
Qed.

Lemma settle_result_id (tx : Transaction.t) (w : World) :
  SettlementResult.TransactionID (settle tx w).1 = Transaction.ID tx.
Proof.
  destruct (settle_cases_total tx w) as [H|a H Hk|a H Hk Hge|a H Hk Hge|a H Hc Hd].
  - by rewrite (settle_absent tx w H).
  - by rewrite (settle_credit tx w a H Hk).
  - by rewrite (settle_debit_ok tx w a H Hk Hge).
  - by rewrite (settle_debit_short tx w a H Hk Hge).
  - by rewrite (settle_other_kind tx w a H Hc Hd).
Qed.

Lemma batch_ids (txs : list Transaction.t) (w : World) :
  SettlementResult.TransactionID <$> (batchProcessTransactions txs w).1 =
    Transaction.ID <$> txs.
Proof.
  revert w. induction txs as [|tx txs IH]; intros w; [done|].
  rewrite batch_cons. simpl. by rewrite IH, settle_result_id.
Qed.

Lemma settle_in_order_from (txs : list Transaction.t) (w : World)
      (rs0 : list SettlementResult.t) :
  fold_left (fun acc tx => (acc.1 ++ [(settle tx acc.2).1], (settle tx acc.2).2))
            txs (rs0, w) =
    (rs0 ++ (batchProcessTransactions txs w).1,
     (batchProcessTransactions txs w).2).
Proof.
  revert w rs0. induction txs as [|tx txs IH]; intros w rs0.
  - simpl. by rewrite app_nil_r.
  - rewrite batch_cons. cbn [fold_left fst snd]. rewrite IH.
    by rewrite <- app_assoc.
Qed.

(** C10. [batchProcessTransactions] returns one result per input
    transaction; the result at index [i] carries the identifier of the
    input at index [i]; and the transactions are applied to the ledger in
    input order.  The call does what settling the transactions one after
    the other from the given state does: an empty batch leaves the state as
    it is, the first transaction is settled in the state the call is made
    in, the transaction at any position is settled in the state that the
    transactions before it have left, and the ones after it start from the
    state it leaves. *)
Theorem batch_sequential (txs : list Transaction.t) (w : World) :
  let rs := (batchProcessTransactions txs w).1 in
  length rs = length txs /\
  (forall (i : nat) (tx : Transaction.t),
      txs !! i = Some tx ->
      SettlementResult.TransactionID <$> rs !! i = Some (Transaction.ID tx)) /\
  (forall (pre post : list Transaction.t) (tx : Transaction.t),
      txs = pre ++ tx :: post ->
      let w1 := (batchProcessTransactions pre w).2 in
      rs !! length pre = Some (settle tx w1).1 /\
      (batchProcessTransactions txs w).2 =
        (batchProcessTransactions post (settle tx w1).2).2) /\
  batchProcessTransactions txs w = settle_in_order txs w /\
  (txs = [] -> batchProcessTransactions txs w = ([], w)) /\
  (forall (tx : Transaction.t) (post : list Transaction.t),
      txs = tx :: post ->
      rs !! 0%nat = Some (settle tx w).1 /\
      (batchProcessTransactions txs w).2 =
        (batchProcessTransactions post (settle tx w).2).2).
Proof.
  intros rs. subst rs. split_and!.
  - apply batch_length.
  - intros i tx Hi. rewrite <- list_lookup_fmap, batch_ids, list_lookup_fmap.
    by rewrite Hi.
  - intros pre post tx ->. simpl. rewrite batch_app, batch_cons. simpl. split.
    + rewrite lookup_app_r by (rewrite batch_length; lia).
      rewrite batch_length, Nat.sub_diag. reflexivity.
    + reflexivity.
  - unfold settle_in_order. rewrite settle_in_order_from.
    by destruct (batchProcessTransactions txs w).
  - by intros ->.
  - intros tx post ->. by rewrite batch_cons.
Qed.

(** ** SubmitTransaction *)


(** ** The worker's loop *)

Lemma processBatch_world (b : list Transaction.t) (w : World) :
  processBatch b w = (tt, (batchProcessTransactions b w).2).
Proof.
  unfold processBatch. run_monad.
  by destruct (batchProcessTransactions b w).
Qed.

(** C8. One iteration of the loop of [processSettlementQueue].
    - A received transaction that brings the buffer to the batch size:
      the whole buffer is settled in that same iteration, the buffer is
      empty afterwards and the timer is reset.  Below the batch size the
      transaction is only buffered.
    - The timer fires: a buffer that is not empty is settled and emptied,
      an empty buffer leaves the state as it is, and the timer is reset in
      both cases.
    - The stop signal: the buffer is settled and the function returns. *)
Theorem loop_iteration_spec (wk : Worker) (w : World) :
  (forall (tx : Transaction.t) (rest : list Transaction.t),
      chan_buf (settlementChan (se w)) = tx :: rest ->
      (batchSize (se w) <= Z.of_nat (length (batch wk ++ [tx])) ->
       loop_iteration case_settlementChan wk w =
         (Some (loop_continue
                  (mk_worker [] (timer_Reset (timer wk) (batchTimeout (se w))))),
          (batchProcessTransactions (batch wk ++ [tx]) (after_recv w rest)).2)) /\
      (Z.of_nat (length (batch wk ++ [tx])) < batchSize (se w) ->
       loop_iteration case_settlementChan wk w =
         (Some (loop_continue (mk_worker (batch wk ++ [tx]) (timer wk))),
          after_recv w rest))) /\
  (batch wk <> [] ->
   loop_iteration case_timer_C wk w =
     (Some (loop_continue
              (mk_worker [] (timer_Reset (timer wk) (batchTimeout (se w))))),
      (batchProcessTransactions (batch wk) w).2)) /\
  (batch wk = [] ->
   loop_iteration case_timer_C wk w =
     (Some (loop_continue
              (mk_worker [] (timer_Reset (timer wk) (batchTimeout (se w))))),
      w)) /\
  (stopChan_closed (se w) = true ->
   loop_iteration case_stopChan wk w =
     (Some loop_return, (batchProcessTransactions (batch wk) w).2)).
Proof.
  split_and!.
  - intros tx rest Hbuf. unfold loop_iteration. run_monad.
    unfold try_recv. rewrite Hbuf. simpl. fold (after_recv w rest). split.
    + intros Hsize.
      assert ((Z.of_nat (length (batch wk ++ [tx])) >=? batchSize (se w)) = true)
        as -> by (apply Z.geb_le; lia).
      by rewrite processBatch_world.
    + intros Hsize.
      assert ((Z.of_nat (length (batch wk ++ [tx])) >=? batchSize (se w)) = false)
        as -> by (rewrite Z.geb_leb; apply Z.leb_gt; lia).
      reflexivity.
  - intros Hne. unfold loop_iteration. run_monad.
    destruct (batch wk) as [|tx b] eqn:Hb; [done|]. simpl.
    by rewrite processBatch_world.
  - intros He. unfold loop_iteration. run_monad. rewrite He. simpl.
    by destruct w.
  - intros Hstop. unfold loop_iteration. run_monad. rewrite Hstop.
    destruct (batch wk) as [|tx b] eqn:Hb; simpl.
    + by destruct w.
    + by rewrite processBatch_world.
Qed.

(** ** FreezeAmount and UnfreezeAmount *)

Lemma freeze_ok (userID : string) (amount : float) (w : World)
      (account : Account.t) :
  accounts (se w) !! userID = Some account ->
  PrimFloat.ltb (Account.Balance account) amount = false ->
  FreezeAmount userID amount w =
    (None,
     mk_world
       (set_accounts (se w)
          (<[userID := Account.mk (Account.UserID account)
                         (Account.Balance account - amount)%float
                         (Account.FrozenAmount account + amount)%float
                         (int64_wrap (Account.Version account + 1))
                         (wall (ticks w))]> (accounts (se w))))
       (S (ticks w))).
Proof. intros H Hlt. unfold FreezeAmount. run_monad. by rewrite H, Hlt. Qed.


Lemma unfreeze_ok (userID : string) (amount : float) (w : World)
      (account : Account.t) :
  accounts (se w) !! userID = Some account ->
  PrimFloat.ltb (Account.FrozenAmount account) amount = false ->
  UnfreezeAmount userID amount w =
    (None,
     mk_world
       (set_accounts (se w)
          (<[userID := Account.mk (Account.UserID account)
                         (Account.Balance account + amount)%float
                         (Account.FrozenAmount account - amount)%float
                         (int64_wrap (Account.Version account + 1))
                         (wall (ticks w))]> (accounts (se w))))
       (S (ticks w))).
Proof. intros H Hlt. unfold UnfreezeAmount. run_monad. by rewrite H, Hlt. Qed.


(** C6, as the code has it.  When [FreezeAmount] of an amount succeeds,
    the [UnfreezeAmount] of the same amount that follows succeeds exactly
    when the frozen amount the freeze has left is not below the amount.
    After the pair the balance is [(balance - amount) + amount] and the
    frozen amount is [(frozen + amount) - amount], both in [float64]
    arithmetic: they are the values from before the freeze whenever these
    two computations are exact. *)
Theorem freeze_then_unfreeze (userID : string) (amount : float) (w : World)
        (account : Account.t) :
  accounts (se w) !! userID = Some account ->
  (FreezeAmount userID amount w).1 = None ->
  let b := Account.Balance account in
  let f := Account.FrozenAmount account in
  let w1 := (FreezeAmount userID amount w).2 in
  let err := (UnfreezeAmount userID amount w1).1 in
  let w2 := (UnfreezeAmount userID amount w1).2 in
  (err = None <-> PrimFloat.ltb (f + amount) amount = false) /\
  (err = None ->
   exists account',
     accounts (se w2) !! userID = Some account' /\
     Account.Balance account' = ((b - amount) + amount)%float /\
     Account.FrozenAmount account' = ((f + amount) - amount)%float /\
     ((b - amount) + amount = b ->
      (f + amount) - amount = f ->
      Account.Balance account' = b /\ Account.FrozenAmount account' = f)%float).
Proof.
  intros Hacc Hfreeze b f w1 err w2. subst b f w1 err w2.
  assert (PrimFloat.ltb (Account.Balance account) amount = false) as Hlt.
  { revert Hfreeze. unfold FreezeAmount. run_monad. rewrite Hacc.
    by destruct (PrimFloat.ltb (Account.Balance account) amount). }
  rewrite (freeze_ok userID amount w account Hacc Hlt). cbn [fst snd].
  set (a1 := Account.mk _ _ _ _ _).
  set (w1 := mk_world _ _).
  assert (accounts (se w1) !! userID = Some a1) as Hacc1
      by apply lookup_insert_eq.
  destruct (PrimFloat.ltb (Account.FrozenAmount account + amount) amount)
    eqn:Hcheck.
  - unfold UnfreezeAmount. run_monad. rewrite lookup_insert_eq. simpl.
    rewrite Hcheck. simpl. split; [split; intros [=] | intros [=]].
  - rewrite (unfreeze_ok userID amount w1 a1 Hacc1 Hcheck). cbn [fst snd].
    split; [done|]. intros _. eexists. simpl. rewrite lookup_insert_eq.
    by split_and!.
Qed.

(** ** Balances stay non-negative *)




Lemma settle_queue (tx : Transaction.t) (w : World) :
  transactions (se (settle tx w).2) = transactions (se w) /\
  settlementChan (se (settle tx w).2) = settlementChan (se w).
Proof.
  destruct (settle_cases_total tx w) as [H|a H Hk|a H Hk Hge|a H Hk Hge|a H Hc Hd].
  - by rewrite (settle_absent tx w H).
  - by rewrite (settle_credit tx w a H Hk).
  - by rewrite (settle_debit_ok tx w a H Hk Hge).
  - by rewrite (settle_debit_short tx w a H Hk Hge).
  - by rewrite (settle_other_kind tx w a H Hc Hd).
Qed.


Lemma batch_queue (txs : list Transaction.t) (w : World) :
  transactions (se (batchProcessTransactions txs w).2) = transactions (se w) /\
  settlementChan (se (batchProcessTransactions txs w).2) = settlementChan (se w).
Proof.
  revert w. induction txs as [|tx txs IH]; intros w; [done|].
  rewrite batch_cons. cbn [snd].
  destruct (IH (settle tx w).2) as [-> ->]. apply settle_queue.
Qed.


Lemma create_queue (userID : string) (initialBalance : float) (w : World) :
  transactions (se (CreateAccount userID initialBalance w).2) = transactions (se w) /\
  settlementChan (se (CreateAccount userID initialBalance w).2) =
    settlementChan (se w).
Proof.
  unfold CreateAccount. run_monad. by destruct (accounts (se w) !! userID).
Qed.


Lemma freeze_queue (userID : string) (amount : float) (w : World) :
  transactions (se (FreezeAmount userID amount w).2) = transactions (se w) /\
  settlementChan (se (FreezeAmount userID amount w).2) = settlementChan (se w).
Proof.
  unfold FreezeAmount. run_monad.
  destruct (accounts (se w) !! userID) as [a|]; [|done].
  by destruct (PrimFloat.ltb (Account.Balance a) amount).
Qed.


Lemma unfreeze_queue (userID : string) (amount : float) (w : World) :
  transactions (se (UnfreezeAmount userID amount w).2) = transactions (se w) /\
  settlementChan (se (UnfreezeAmount userID amount w).2) = settlementChan (se w).
Proof.
  unfold UnfreezeAmount. run_monad.
  destruct (accounts (se w) !! userID) as [a|]; [|done].
  by destruct (PrimFloat.ltb (Account.FrozenAmount a) amount).
Qed.

(** What [SubmitTransaction] does to the state: the accounts stay, and the
    log and the channel each stay or grow by the stamped transaction; they
    grow only when the amount has passed the validation. *)
Lemma submit_effect (tx : Transaction.t) (w : World) :
  let w' := (SubmitTransaction tx w).2 in
  accounts (se w') = accounts (se w) /\
  exists (id : string) (ts : time_Time),
    (transactions (se w') = transactions (se w) \/
     transactions (se w') = transactions (se w) ++ [stamp tx id ts]) /\
    (chan_buf (settlementChan (se w')) = chan_buf (settlementChan (se w)) \/
     PrimFloat.leb (Transaction.Amount tx) 0 = false /\
     chan_buf (settlementChan (se w')) =
       chan_buf (settlementChan (se w)) ++ [stamp tx id ts]).
Proof.
  intros w'. subst w'. unfold SubmitTransaction.
  destruct (bool_decide (Transaction.UserID tx = "")
            || PrimFloat.leb (Transaction.Amount tx) 0) eqn:Hv.
  - simpl. split; [done|]. exists "", 0. split; by left.
  - apply orb_false_iff in Hv. destruct Hv as [_ Ha].
    run_monad. unfold try_send. simpl.
    destruct (length (chan_buf (settlementChan (se w)))
              <? chan_cap (settlementChan (se w)))%nat; simpl.
    + split; [done|]. eexists _, _. split; by right.
    + split; [done|]. eexists _, _. split; [by right | by left].
Qed.

Lemma loop_iteration_log (c : select_case) (wk : Worker) (w : World) :
  transactions (se (loop_iteration c wk w).2) = transactions (se w).
Proof.
  unfold loop_iteration. run_monad. destruct c.
  - unfold try_recv. destruct (chan_buf (settlementChan (se w))) as [|tx rest];
      simpl; [done|].
    destruct (Z.of_nat (length (batch wk ++ [tx])) >=? batchSize (se w)); [|done].
    rewrite processBatch_world. simpl.
    exact (proj1 (batch_queue (batch wk ++ [tx]) (after_recv w rest))).
  - destruct (0 <? length (batch wk))%nat; simpl; [|done].
    rewrite processBatch_world. simpl.
    by destruct (batch_queue (batch wk) w) as [-> _].
  - destruct (stopChan_closed (se w)); [|done].
    destruct (0 <? length (batch wk))%nat; simpl; [|done].
    rewrite processBatch_world. simpl.
    by destruct (batch_queue (batch wk) w) as [-> _].
Qed.








(** ** The status of a logged transaction *)

Lemma exec_log_pending (s s' : System) (c : Call) :
  Forall is_pending (transactions (se (world s))) ->
  exec s c = Some s' ->
  Forall is_pending (transactions (se (world s'))).
Proof.
  intros Hp. destruct c; simpl.
  - intros [= <-]. simpl.
    by destruct (create_queue userID initialBalance (world s)) as [-> _].
  - intros [= <-]. simpl.
    destruct (submit_effect tx (world s)) as (_ & id & ts & [->| ->] & _);
      [done|].
    apply Forall_app. split; [done|]. by constructor.
  - intros [= <-]. simpl.
    by destruct (freeze_queue userID amount (world s)) as [-> _].
  - intros [= <-]. simpl.
    by destruct (unfreeze_queue userID amount (world s)) as [-> _].
  - by intros [= <-].
  - destruct (worker s); [|intros [=]|];
      (destruct (processSettlementQueue_init (se (world s))); simpl;
       by intros [= <-]).
  - unfold Stop. run_monad.
    by destruct (stopChan_closed (se (world s))); simpl; intros [= <-].
  - destruct (worker s) as [|wk|]; [intros [=]| |intros [=]].
    pose proof (loop_iteration_log c wk (world s)) as Hlog.
    destruct (loop_iteration c wk (world s)) as [[out|] w']; simpl;
      intros [= <-]. simpl in *. by rewrite Hlog.
Qed.

Lemma run_log_pending (calls : list Call) (s s' : System) :
  Forall is_pending (transactions (se (world s))) ->
  run calls s = Some s' ->
  Forall is_pending (transactions (se (world s'))).
Proof.
  revert s. induction calls as [|c calls IH]; intros s Hs; simpl.
  - by intros [= <-].
  - destruct (exec s c) as [s1|] eqn:He; simpl; [|intros [=]].
    apply IH. by eapply exec_log_pending.
Qed.

Lemma stats_fold_pending (l : list Transaction.t) (stats : gmap string Z) (v : Z) :
  Forall is_pending l ->
  stats !! "pending_transactions" = Some v ->
  let stats' :=
    fold_left
      (fun stats tx =>
         if bool_decide (Transaction.Status tx = "pending")
         then stats_incr "pending_transactions" stats
         else stats_incr "processed_transactions" stats) l stats in
  stats' !! "processed_transactions" = stats !! "processed_transactions" /\
  stats' !! "pending_transactions" = Some (v + Z.of_nat (length l)).
Proof.
  intros Hl. revert stats v.
  induction Hl as [|tx l Htx Hl IH]; intros stats v Hv; simpl.
  - split; [done|]. rewrite Hv. f_equal. lia.
  - rewrite bool_decide_eq_true_2 by exact Htx.
    destruct (IH (stats_incr "pending_transactions" stats) (v + 1)) as [Hp Hq].
    { unfold stats_incr. rewrite lookup_insert_eq, Hv. reflexivity. }
    rewrite Hp, Hq. split.
    + unfold stats_incr. by rewrite lookup_insert_ne.
    + f_equal. lia.
Qed.

(** Whatever calls are made on a new engine, every logged transaction keeps
    the status pending, and [GetTransactionStats] counts every logged
    transaction as pending and none as processed. *)
Lemma status_stays_pending (calls : list Call) (s : System) :
  run calls init_system = Some s ->
  let stats := (GetTransactionStats (world s)).1 in
  Forall is_pending (transactions (se (world s))) /\
  stats !! "processed_transactions" = Some 0 /\
  stats !! "pending_transactions" =
    Some (Z.of_nat (length (transactions (se (world s))))).
Proof.
  intros Hrun stats.
  assert (Forall is_pending (transactions (se (world s)))) as Hp.
  { eapply run_log_pending; [|exact Hrun]. constructor. }
  split; [done|]. subst stats. unfold GetTransactionStats. run_monad.
  match goal with
  | |- context [fold_left _ _ ?m] =>
      destruct (stats_fold_pending (transactions (se (world s))) m 0 Hp) as [H1 H2]
  end.
  { reflexivity. }
  rewrite H1, H2. split; [reflexivity|]. f_equal.
Qed.

(** * Further properties of the engine *)

(** ** What a settlement result says *)

(** X1. A settlement result carries an error message exactly when it is a
    failure, and when the transaction's account exists the balance it
    reports is the balance the account has once the transaction is settled
    (the new balance on success, the unchanged one on failure). *)
Theorem settlement_result_consistent (tx : Transaction.t) (w : World) :
  let r := (settle tx w).1 in
  let w' := (settle tx w).2 in
  (SettlementResult.Success r = true <-> SettlementResult.ErrorMessage r = "") /\
  (forall a' : Account.t,
      accounts (se w') !! Transaction.UserID tx = Some a' ->
      SettlementResult.NewBalance r = Account.Balance a') /\
  (accounts (se w) !! Transaction.UserID tx = None ->
   SettlementResult.NewBalance r = 0%float /\
   accounts (se w') !! Transaction.UserID tx = None).
Proof.
  intros r w'. subst r w'.
  destruct (settle_cases_total tx w) as [H|a H Hk|a H Hk Hge|a H Hk Hge|a H Hc Hd].
  - rewrite (settle_absent tx w H). simpl. split_and!.
    + split; intros [=].
    + intros a'. by rewrite H.
    + done.
  - rewrite (settle_credit tx w a H Hk). cbn [fst snd]. split_and!.
    + done.
    + intros a'. rewrite committed_lookup. by intros [= <-].
    + by rewrite H.
  - rewrite (settle_debit_ok tx w a H Hk Hge). cbn [fst snd]. split_and!.
    + done.
    + intros a'. rewrite committed_lookup. by intros [= <-].
    + by rewrite H.
  - rewrite (settle_debit_short tx w a H Hk Hge). simpl. split_and!.
    + split; intros [=].
    + intros a'. rewrite H. by intros [= <-].
    + by rewrite H.
  - rewrite (settle_other_kind tx w a H Hc Hd). simpl. split_and!.
    + split; intros [=].
    + intros a'. rewrite H. by intros [= <-].
    + by rewrite H.
Qed.

(** ** What a batch leaves alone *)

Lemma settle_other_account (tx : Transaction.t) (w : World) (userID : string) :
  userID <> Transaction.UserID tx ->
  accounts (se (settle tx w).2) !! userID = accounts (se w) !! userID.
Proof.
  intros Hne.
  destruct (settle_cases_total tx w) as [H|a H Hk|a H Hk Hge|a H Hk Hge|a H Hc Hd].
  - by rewrite (settle_absent tx w H).
  - rewrite (settle_credit tx w a H Hk). by apply committed_lookup_ne.
  - rewrite (settle_debit_ok tx w a H Hk Hge). by apply committed_lookup_ne.
  - by rewrite (settle_debit_short tx w a H Hk Hge).
  - by rewrite (settle_other_kind tx w a H Hc Hd).
Qed.

(** The fields a settlement never writes. *)
Definition account_identity (a : Account.t) : string * float :=
  (Account.UserID a, Account.FrozenAmount a).

Lemma settle_identity (tx : Transaction.t) (w : World) (userID : string) :
  account_identity <$> accounts (se (settle tx w).2) !! userID =
    account_identity <$> accounts (se w) !! userID.
Proof.
  destruct (decide (userID = Transaction.UserID tx)) as [->|Hne];
    [|by rewrite settle_other_account].
  destruct (settle_cases_total tx w) as [H|a H Hk|a H Hk Hge|a H Hk Hge|a H Hc Hd].
  - by rewrite (settle_absent tx w H).
  - rewrite (settle_credit tx w a H Hk). cbn [snd].
    by rewrite committed_lookup, H.
  - rewrite (settle_debit_ok tx w a H Hk Hge). cbn [snd].
    by rewrite committed_lookup, H.
  - by rewrite (settle_debit_short tx w a H Hk Hge).
  - by rewrite (settle_other_kind tx w a H Hc Hd).
Qed.

(** X2. No cross-account effect: an account whose user identifier is not
    the user identifier of any transaction of the batch is exactly the same
    after [batchProcessTransactions] as before. *)
Theorem batch_touches_only_named_accounts
        (txs : list Transaction.t) (w : World) (userID : string) :
  userID ∉ Transaction.UserID <$> txs ->
  accounts (se (batchProcessTransactions txs w).2) !! userID =
    accounts (se w) !! userID.
Proof.
  revert w. induction txs as [|tx txs IH]; intros w Hnot; [done|].
  rewrite batch_cons. cbn [snd]. rewrite fmap_cons in Hnot.
  apply not_elem_of_cons in Hnot. destruct Hnot as [Hne Hnot].
  rewrite IH by done. by apply settle_other_account.
Qed.

(** X3. [batchProcessTransactions] neither creates nor removes an account,
    and it never changes the frozen amount or the user identifier of one:
    only balance, version and timestamp are written. *)
Theorem batch_keeps_accounts_and_frozen
        (txs : list Transaction.t) (w : World) (userID : string) :
  let before := accounts (se w) !! userID in
  let after := accounts (se (batchProcessTransactions txs w).2) !! userID in
  (is_Some after <-> is_Some before) /\
  Account.FrozenAmount <$> after = Account.FrozenAmount <$> before /\
  Account.UserID <$> after = Account.UserID <$> before.
Proof.
  intros before after. subst before after.
  assert (account_identity <$>
            accounts (se (batchProcessTransactions txs w).2) !! userID =
          account_identity <$> accounts (se w) !! userID) as Hid.
  { revert w. induction txs as [|tx txs IH]; intros w; [done|].
    rewrite batch_cons. cbn [snd]. rewrite IH. apply settle_identity. }
  destruct (accounts (se (batchProcessTransactions txs w).2) !! userID) as [a'|],
           (accounts (se w) !! userID) as [a|]; simpl in *; try done.
  injection Hid as Hu Hf. split_and!; [done | by rewrite Hf | by rewrite Hu].
Qed.

Lemma settle_failure_unchanged (tx : Transaction.t) (w : World) :
  SettlementResult.Success (settle tx w).1 = false ->
  se (settle tx w).2 = se w.
Proof.
  destruct (settle_cases_total tx w) as [H|a H Hk|a H Hk Hge|a H Hk Hge|a H Hc Hd].
  - by rewrite (settle_absent tx w H).
  - by rewrite (settle_credit tx w a H Hk).
  - by rewrite (settle_debit_ok tx w a H Hk Hge).
  - by rewrite (settle_debit_short tx w a H Hk Hge).
  - by rewrite (settle_other_kind tx w a H Hc Hd).
Qed.

(** X4. A batch in which every settlement fails leaves the engine exactly
    as it was: accounts, log, queue and configuration.  Only the clock has
    been read. *)
Theorem failed_batch_changes_nothing (txs : list Transaction.t) (w : World) :
  Forall (fun r => SettlementResult.Success r = false)
         (batchProcessTransactions txs w).1 ->
  se (batchProcessTransactions txs w).2 = se w.
Proof.
  revert w. induction txs as [|tx txs IH]; intros w; [done|].
  rewrite batch_cons. cbn [fst snd]. intros Hall.
  inversion Hall as [|? ? Hr Hrs]; subst.
  rewrite IH by done. by apply settle_failure_unchanged.
Qed.

(** ** FreezeAmount and UnfreezeAmount: errors and effects *)

(** X5. [FreezeAmount] fails with [AccountNotFound] exactly when the user
    has no account, and with its insufficient-balance error exactly when the
    account exists and its balance is below the amount; a failed call leaves
    the state unchanged.  A successful call moves the amount from the
    balance to the frozen amount of that account, increments its version,
    stamps it, and leaves every other account, the log and the queue
    alone. *)
Theorem freeze_amount_spec (userID : string) (amount : float) (w : World) :
  let err := (FreezeAmount userID amount w).1 in
  let w' := (FreezeAmount userID amount w).2 in
  (err = Some (AccountNotFound userID) <-> accounts (se w) !! userID = None) /\
  (err = Some FreezeInsufficientBalance <->
   exists a, accounts (se w) !! userID = Some a /\
             PrimFloat.ltb (Account.Balance a) amount = true) /\
  (err <> None -> w' = w) /\
  (err = None ->
   exists a,
     accounts (se w) !! userID = Some a /\
     accounts (se w') !! userID =
       Some (Account.mk (Account.UserID a)
                        (Account.Balance a - amount)%float
                        (Account.FrozenAmount a + amount)%float
                        (int64_wrap (Account.Version a + 1))
                        (wall (ticks w))) /\
     (forall other, other <> userID ->
                    accounts (se w') !! other = accounts (se w) !! other) /\
     transactions (se w') = transactions (se w) /\
     settlementChan (se w') = settlementChan (se w)).
Proof.
  intros err w'. subst err w'.
  destruct (accounts (se w) !! userID) as [a|] eqn:H.
  - destruct (PrimFloat.ltb (Account.Balance a) amount) eqn:Hlt.
    + assert (FreezeAmount userID amount w = (Some FreezeInsufficientBalance, w))
        as -> by (unfold FreezeAmount; run_monad; by rewrite H, Hlt).
      simpl. split_and!; [split; intros [=] | | done | done].
      split; [intros _; by exists a | done].
    + rewrite (freeze_ok userID amount w a H Hlt). simpl. split_and!.
      * split; intros [=].
      * split; [intros [=] | intros (a0 & [= <-] & Ha0); congruence].
      * done.
      * intros _. exists a. split_and!; try done.
        -- apply lookup_insert_eq.
        -- intros other Hne. by apply lookup_insert_ne.
  - assert (FreezeAmount userID amount w = (Some (AccountNotFound userID), w))
      as -> by (unfold FreezeAmount; run_monad; by rewrite H).
    simpl. split_and!; [done | | done | done].
    split; [|intros (a0 & [=] & _)].
    unfold AccountNotFound, FreezeInsufficientBalance. intros [=].
Qed.

(** X6. [UnfreezeAmount] fails with [AccountNotFound] exactly when the user
    has no account, and with [InsufficientFrozenFunds] exactly when the
    account exists and its frozen amount is below the amount; a failed call
    leaves the state unchanged.  A successful call moves the amount from the
    frozen amount back to the balance of that account, increments its
    version, stamps it, and leaves every other account, the log and the
    queue alone. *)
Theorem unfreeze_amount_spec (userID : string) (amount : float) (w : World) :
  let err := (UnfreezeAmount userID amount w).1 in
  let w' := (UnfreezeAmount userID amount w).2 in
  (err = Some (AccountNotFound userID) <-> accounts (se w) !! userID = None) /\
  (err = Some InsufficientFrozenFunds <->
   exists a, accounts (se w) !! userID = Some a /\
             PrimFloat.ltb (Account.FrozenAmount a) amount = true) /\
  (err <> None -> w' = w) /\
  (err = None ->
   exists a,
     accounts (se w) !! userID = Some a /\
     accounts (se w') !! userID =
       Some (Account.mk (Account.UserID a)
                        (Account.Balance a + amount)%float
                        (Account.FrozenAmount a - amount)%float
                        (int64_wrap (Account.Version a + 1))
                        (wall (ticks w))) /\
     (forall other, other <> userID ->
                    accounts (se w') !! other = accounts (se w) !! other) /\
     transactions (se w') = transactions (se w) /\
     settlementChan (se w') = settlementChan (se w)).
Proof.
  intros err w'. subst err w'.
  destruct (accounts (se w) !! userID) as [a|] eqn:H.
  - destruct (PrimFloat.ltb (Account.FrozenAmount a) amount) eqn:Hlt.
    + assert (UnfreezeAmount userID amount w = (Some InsufficientFrozenFunds, w))
        as -> by (unfold UnfreezeAmount; run_monad; by rewrite H, Hlt).
      simpl. split_and!; [split; intros [=] | | done | done].
      split; [intros _; by exists a | done].
    + rewrite (unfreeze_ok userID amount w a H Hlt). simpl. split_and!.
      * split; intros [=].
      * split; [intros [=] | intros (a0 & [= <-] & Ha0); congruence].
      * done.
      * intros _. exists a. split_and!; try done.
        -- apply lookup_insert_eq.
        -- intros other Hne. by apply lookup_insert_ne.
  - assert (UnfreezeAmount userID amount w = (Some (AccountNotFound userID), w))
      as -> by (unfold UnfreezeAmount; run_monad; by rewrite H).
    simpl. split_and!; [done | | done | done].
    split; [|intros (a0 & [=] & _)].
    unfold AccountNotFound, InsufficientFrozenFunds. intros [=].
Qed.

(** ** GetAccount *)

(** X7. Insert then look up: after [CreateAccount] has succeeded for a user,
    [GetAccount] returns for that user, without error, the account with the
    given initial balance, no frozen amount and version 1, and returns for
    every other user what it returned before.  [GetAccount] itself never
    changes the state, and for a user without an account it returns no
    account and the error [AccountNotFound]. *)
Theorem create_then_get_account
        (userID : string) (initialBalance : float) (w : World) :
  let w' := (CreateAccount userID initialBalance w).2 in
  (accounts (se w) !! userID = None ->
   (GetAccount userID w).1 = (None, Some (AccountNotFound userID)) /\
   (GetAccount userID w').1 =
     (Some (Account.mk userID initialBalance 0 1 (wall (ticks w))), None)) /\
  (forall other : string,
      other <> userID -> (GetAccount other w').1 = (GetAccount other w).1) /\
  (forall u : string, (GetAccount u w).2 = w).
Proof.
  intros w'. subst w'. split_and!.
  - intros H. unfold GetAccount, CreateAccount. run_monad. rewrite H. simpl.
    by rewrite lookup_insert_eq.
  - intros other Hne. unfold GetAccount, CreateAccount. run_monad.
    destruct (accounts (se w) !! userID); simpl; [done|].
    rewrite lookup_insert_ne by congruence.
    by destruct (accounts (se w) !! other).
  - intros u. unfold GetAccount. run_monad.
    by destruct (accounts (se w) !! u).
Qed.

(** ** GetTransactionStats *)

Definition status_pending (tx : Transaction.t) : bool :=
  bool_decide (Transaction.Status tx = "pending").

Lemma stats_fold_counts (l : list Transaction.t) (stats : gmap string Z) (p q : Z) :
  stats !! "pending_transactions" = Some p ->
  stats !! "processed_transactions" = Some q ->
  let stats' :=
    fold_left
      (fun stats tx =>
         if bool_decide (Transaction.Status tx = "pending")
         then stats_incr "pending_transactions" stats
         else stats_incr "processed_transactions" stats) l stats in
  stats' !! "pending_transactions" =
    Some (p + Z.of_nat (length (List.filter status_pending l))) /\
  stats' !! "processed_transactions" =
    Some (q + Z.of_nat (length (List.filter (fun tx => negb (status_pending tx)) l))) /\
  forall key : string,
    key <> "pending_transactions" -> key <> "processed_transactions" ->
    stats' !! key = stats !! key.
Proof.
  unfold status_pending.
  revert stats p q. induction l as [|tx l IH]; intros stats p q Hp Hq; simpl.
  - split_and!; [rewrite Hp; f_equal; lia | rewrite Hq; f_equal; lia | done].
  - destruct (bool_decide (Transaction.Status tx = "pending")); simpl.
    + destruct (IH (stats_incr "pending_transactions" stats) (p + 1) q)
        as (H1 & H2 & H3).
      { unfold stats_incr. by rewrite lookup_insert_eq, Hp. }
      { unfold stats_incr. by rewrite lookup_insert_ne. }
      split_and!.
      * rewrite H1. f_equal. lia.
      * done.
      * intros key Hk1 Hk2. rewrite H3 by done.
        unfold stats_incr. by rewrite lookup_insert_ne.
    + destruct (IH (stats_incr "processed_transactions" stats) p (q + 1))
        as (H1 & H2 & H3).
      { unfold stats_incr. by rewrite lookup_insert_ne. }
      { unfold stats_incr. by rewrite lookup_insert_eq, Hq. }
      split_and!.
      * done.
      * rewrite H2. f_equal. lia.
      * intros key Hk1 Hk2. rewrite H3 by done.
        unfold stats_incr. by rewrite lookup_insert_ne.
Qed.

Lemma filter_split_length {A} (f : A -> bool) (l : list A) :
  (length (List.filter f l) + length (List.filter (fun x => negb (f x)) l) =
   length l)%nat.
Proof.
  induction l as [|x l IH]; [done|]. simpl. destruct (f x); simpl; lia.
Qed.

(** X8. [GetTransactionStats] reads the state without changing it.  In any
    state of the engine it reports the number of accounts, the length of
    the log, the number of logged transactions whose status is pending and
    the number of those with any other status; the last two add up to the
    length of the log. *)
Theorem transaction_stats_spec (w : World) :
  let stats := (GetTransactionStats w).1 in
  let log := transactions (se w) in
  (GetTransactionStats w).2 = w /\
  stats !! "total_accounts" = Some (Z.of_nat (size (accounts (se w)))) /\
  stats !! "total_transactions" = Some (Z.of_nat (length log)) /\
  stats !! "pending_transactions" =
    Some (Z.of_nat (length (List.filter status_pending log))) /\
  stats !! "processed_transactions" =
    Some (Z.of_nat (length (List.filter (fun tx => negb (status_pending tx)) log))) /\
  default 0 (stats !! "pending_transactions") +
  default 0 (stats !! "processed_transactions") =
    default 0 (stats !! "total_transactions").
Proof.
  intros stats log. subst stats log. unfold GetTransactionStats. run_monad.
  match goal with
  | |- context [fold_left _ _ ?m] =>
      destruct (stats_fold_counts (transactions (se w)) m 0 0) as (H1 & H2 & H3);
        [reflexivity | reflexivity |]
  end.
  rewrite H1, H2, !H3 by done. clear H1 H2 H3.
  match goal with
  | |- context [?m !! "total_transactions"] =>
      assert (m !! "total_transactions" =
                Some (Z.of_nat (length (transactions (se w))))) as ->
        by reflexivity;
      assert (m !! "total_accounts" =
                Some (Z.of_nat (size (accounts (se w))))) as ->
        by reflexivity
  end.
  simpl. split_and!; try done.
  pose proof (filter_split_length status_pending (transactions (se w))). lia.
Qed.

(** ** processBatch *)

(** X9. The two counters that [processBatch] prints for a batch count the
    successful and the failed settlements of that batch, and add up to the
    number of transactions in the batch. *)
Theorem process_batch_counts (batch : list Transaction.t) (w : World) :
  let results := (batchProcessTransactions batch w).1 in
  let counts := count_results results in
  counts.1 = Z.of_nat (length (List.filter SettlementResult.Success results)) /\
  counts.2 =
    Z.of_nat (length (List.filter (fun r => negb (SettlementResult.Success r))
                                  results)) /\
  counts.1 + counts.2 = Z.of_nat (length batch).
Proof.
  intros results counts. subst counts.
  assert (forall (rs : list SettlementResult.t) (s f : Z),
             fold_left (fun '(successCount, failCount) result =>
                          if SettlementResult.Success result
                          then (successCount + 1, failCount)
                          else (successCount, failCount + 1)) rs (s, f) =
             (s + Z.of_nat (length (List.filter SettlementResult.Success rs)),
              f + Z.of_nat
                    (length (List.filter
                               (fun r => negb (SettlementResult.Success r)) rs))))
    as Hfold.
  { induction rs as [|r rs IH]; intros s f; simpl.
    - f_equal; lia.
    - destruct (SettlementResult.Success r); simpl; rewrite IH; f_equal; lia. }
  unfold count_results. rewrite Hfold. simpl. split_and!; [done | done |].
  pose proof (filter_split_length SettlementResult.Success results) as Hlen.
  subst results. rewrite batch_length in Hlen. lia.
Qed.

(** ** The iterations of the worker, by inversion *)

Lemma loop_iteration_inv (c : select_case) (wk : Worker) (w w' : World)
      (out : loop_outcome) :
  loop_iteration c wk w = (Some out, w') ->
  (c = case_settlementChan /\
   exists (tx : Transaction.t) (rest : list Transaction.t),
     chan_buf (settlementChan (se w)) = tx :: rest /\
     ((batchSize (se w) <= Z.of_nat (length (batch wk ++ [tx])) /\
       out = loop_continue
               (mk_worker [] (timer_Reset (timer wk) (batchTimeout (se w)))) /\
       w' = (batchProcessTransactions (batch wk ++ [tx]) (after_recv w rest)).2) \/
      (Z.of_nat (length (batch wk ++ [tx])) < batchSize (se w) /\
       out = loop_continue (mk_worker (batch wk ++ [tx]) (timer wk)) /\
       w' = after_recv w rest))) \/
  (c = case_timer_C /\
   out = loop_continue
           (mk_worker [] (timer_Reset (timer wk) (batchTimeout (se w)))) /\
   w' = (batchProcessTransactions (batch wk) w).2) \/
  (c = case_stopChan /\ stopChan_closed (se w) = true /\
   out = loop_return /\
   w' = (batchProcessTransactions (batch wk) w).2).
Proof.
  unfold loop_iteration. run_monad. destruct c.
  - unfold try_recv. destruct (chan_buf (settlementChan (se w))) as [|tx rest];
      simpl; [intros [=]|].
    fold (after_recv w rest). intros H. left. split; [done|]. exists tx, rest.
    split; [done|].
    destruct (Z.of_nat (length (batch wk ++ [tx])) >=? batchSize (se w)) eqn:Hs.
    + rewrite processBatch_world in H. simpl in H. injection H as <- <-.
      left. split_and!; [|done|done]. apply Z.geb_le in Hs. lia.
    + injection H as <- <-. right. split_and!; [|done|done].
      rewrite Z.geb_leb in Hs. apply Z.leb_gt in Hs. lia.
  - intros H. right. left. split; [done|].
    destruct (batch wk) as [|tx b] eqn:Hb; simpl in *.
    + injection H as <- <-. split; [done|]. by destruct w.
    + rewrite processBatch_world in H. simpl in H. by injection H as <- <-.
  - intros H. right. right. split; [done|].
    destruct (stopChan_closed (se w)); [|discriminate H]. split; [done|].
    destruct (batch wk) as [|tx b] eqn:Hb; simpl in *.
    + injection H as <- <-. split; [done|]. by destruct w.
    + rewrite processBatch_world in H. simpl in H. by injection H as <- <-.
Qed.


Lemma batch_ticks (txs : list Transaction.t) (w : World) :
  (ticks w <= ticks (batchProcessTransactions txs w).2)%nat.
Proof.
  revert w. induction txs as [|tx txs IH]; intros w; [done|].
  rewrite batch_cons. cbn [snd]. etransitivity; [|apply IH].
  destruct (settle_cases_total tx w) as [H|a H Hk|a H Hk Hge|a H Hk Hge|a H Hc Hd].
  - rewrite (settle_absent tx w H). simpl. lia.
  - rewrite (settle_credit tx w a H Hk). simpl. lia.
  - rewrite (settle_debit_ok tx w a H Hk Hge). simpl. lia.
  - rewrite (settle_debit_short tx w a H Hk Hge). simpl. lia.
  - rewrite (settle_other_kind tx w a H Hc Hd). simpl. lia.
Qed.

(** ** Shutdown *)

(** X10. The stop case of the worker's loop can fire only once [Stop] has
    closed the stop channel.  When it fires, the worker settles its batch
    buffer and returns, and it takes nothing out of the queue: the
    transactions still waiting in the channel stay there, unsettled. *)
Theorem stop_leaves_the_queue (wk : Worker) (w : World) :
  (stopChan_closed (se w) = false ->
   loop_iteration case_stopChan wk w = (None, w)) /\
  (stopChan_closed (se w) = true ->
   (loop_iteration case_stopChan wk w).1 = Some loop_return /\
   settlementChan (se (loop_iteration case_stopChan wk w).2) =
     settlementChan (se w) /\
   transactions (se (loop_iteration case_stopChan wk w).2) =
     transactions (se w) /\
   accounts (se (loop_iteration case_stopChan wk w).2) =
     accounts (se (batchProcessTransactions (batch wk) w).2)).
Proof.
  split.
  - intros Hopen. unfold loop_iteration. run_monad. by rewrite Hopen.
  - intros Hclosed.
    assert (loop_iteration case_stopChan wk w =
              (Some loop_return, (batchProcessTransactions (batch wk) w).2)) as ->.
    { unfold loop_iteration. run_monad. rewrite Hclosed.
      destruct (batch wk) as [|tx b]; simpl; [by destruct w|].
      by rewrite processBatch_world. }
    cbn [fst snd]. destruct (batch_queue (batch wk) w) as [Hlog Hchan].
    by split_and!.
Qed.

(** ** Each account follows its own transactions *)

(** The fields of an account other than its timestamp. *)
Definition account_core (a : Account.t) : string * float * float * Z :=
  (Account.UserID a, Account.Balance a, Account.FrozenAmount a,
   Account.Version a).

(** What one transaction does to these fields of the account it names. *)
Definition settle_core (tx : Transaction.t) (c : string * float * float * Z)
  : string * float * float * Z :=
  let '(id, balance, frozen, version) := c in
  if bool_decide (Transaction.Type_ tx = "credit") then
    (id, (balance + Transaction.Amount tx)%float, frozen,
     int64_wrap (version + 1))
  else if bool_decide (Transaction.Type_ tx = "debit") then
    if float_ge balance (Transaction.Amount tx)
    then (id, (balance - Transaction.Amount tx)%float, frozen,
          int64_wrap (version + 1))
    else c
  else c.

Lemma settle_core_step (tx : Transaction.t) (w : World) (userID : string) :
  account_core <$> accounts (se (settle tx w).2) !! userID =
    if bool_decide (Transaction.UserID tx = userID)
    then settle_core tx <$> (account_core <$> accounts (se w) !! userID)
    else account_core <$> accounts (se w) !! userID.
Proof.
  case_bool_decide as Hu.
  - subst userID. unfold settle_core.
    destruct (settle_cases_total tx w) as [H|a H Hk|a H Hk Hge|a H Hk Hge|a H Hc Hd].
    + rewrite (settle_absent tx w H). simpl. by rewrite H.
    + rewrite (settle_credit tx w a H Hk). cbn [snd].
      rewrite committed_lookup, H. simpl.
      by rewrite bool_decide_eq_true_2.
    + rewrite (settle_debit_ok tx w a H Hk Hge). cbn [snd].
      rewrite committed_lookup, H. simpl.
      rewrite bool_decide_eq_false_2 by (rewrite Hk; discriminate).
      by rewrite bool_decide_eq_true_2, Hge.
    + rewrite (settle_debit_short tx w a H Hk Hge). simpl. rewrite H. simpl.
      rewrite bool_decide_eq_false_2 by (rewrite Hk; discriminate).
      by rewrite bool_decide_eq_true_2, Hge.
    + rewrite (settle_other_kind tx w a H Hc Hd). simpl. rewrite H. simpl.
      by rewrite !bool_decide_eq_false_2.
  - rewrite settle_other_account; [done | congruence].
Qed.

(** X11. After [batchProcessTransactions], the identifier, balance, frozen
    amount and version of every account are what one gets from their values
    before the batch by applying, in batch order, only the transactions
    that name this account: a credit adds its amount, a debit subtracts it
    when the balance covers it and is skipped otherwise, any other kind is
    skipped, and each applied transaction increments the version.  The
    transactions of other users play no part. *)
Theorem batch_account_follows_own_transactions
        (txs : list Transaction.t) (w : World) (userID : string) :
  account_core <$> accounts (se (batchProcessTransactions txs w).2) !! userID =
    fold_left
      (fun c tx =>
         if bool_decide (Transaction.UserID tx = userID)
         then settle_core tx <$> c else c)
      txs (account_core <$> accounts (se w) !! userID).
Proof.
  revert w. induction txs as [|tx txs IH]; intros w; [done|].
  rewrite batch_cons. cbn [snd fold_left]. rewrite IH. f_equal.
  apply settle_core_step.
Qed.

(** ** The pipeline from submission to settlement *)

Lemma submit_invalid (tx : Transaction.t) (w : World) :
  bool_decide (Transaction.UserID tx = "")
  || PrimFloat.leb (Transaction.Amount tx) 0 = true ->
  SubmitTransaction tx w = ((Some InvalidTransaction, tx), w).
Proof. intros H. unfold SubmitTransaction. by rewrite H. Qed.

Lemma submit_valid (tx : Transaction.t) (w : World) :
  bool_decide (Transaction.UserID tx = "")
  || PrimFloat.leb (Transaction.Amount tx) 0 = false ->
  let st := stamp tx ("tx_" +:+ pretty (wall (ticks w))) (wall (S (ticks w))) in
  let c := settlementChan (se w) in
  SubmitTransaction tx w =
    if (length (chan_buf c) <? chan_cap c)%nat
    then ((None, st),
          mk_world
            (set_settlementChan
               (set_transactions (se w) (transactions (se w) ++ [st]))
               (mk_chan (chan_buf c ++ [st]) (chan_cap c)))
            (S (S (ticks w))))
    else ((Some QueueFull, st),
          mk_world (set_transactions (se w) (transactions (se w) ++ [st]))
                   (S (S (ticks w)))).
Proof.
  intros H st c. subst st c. unfold SubmitTransaction. rewrite H.
  run_monad. unfold try_send. simpl.
  by destruct (length (chan_buf (settlementChan (se w)))
               <? chan_cap (settlementChan (se w)))%nat.
Qed.

(** The transactions the worker holds in its batch buffer. *)
Definition buffered (s : System) : list Transaction.t :=
  match worker s with
  | running wk => batch wk
  | _ => []
  end.

Definition sys_log (s : System) : list Transaction.t :=
  transactions (se (world s)).

Definition sys_queue (s : System) : list Transaction.t :=
  chan_buf (settlementChan (se (world s))).

(** What a call does to the log, the queue and the worker's buffer: nothing
    but possibly emptying the buffer; or it logs a stamped transaction and
    possibly queues it; or it moves the head of the queue to the buffer,
    which a flush then empties. *)
Lemma exec_pipeline (s s' : System) (c : Call) :
  exec s c = Some s' ->
  chan_cap (settlementChan (se (world s'))) =
    chan_cap (settlementChan (se (world s))) /\
  (ticks (world s) <= ticks (world s'))%nat /\
  ((sys_log s' = sys_log s /\ sys_queue s' = sys_queue s /\
    (buffered s' = buffered s \/ buffered s' = [])) \/
   (exists (tx : Transaction.t) (ts : time_Time),
       let st := stamp tx ("tx_" +:+ pretty (wall (ticks (world s)))) ts in
       c = CallSubmitTransaction tx /\
       (ticks (world s) < ticks (world s'))%nat /\
       sys_log s' = sys_log s ++ [st] /\
       buffered s' = buffered s /\
       (sys_queue s' = sys_queue s \/
        (length (sys_queue s) <
           chan_cap (settlementChan (se (world s))))%nat /\
        sys_queue s' = sys_queue s ++ [st])) \/
   (exists (tx : Transaction.t) (rest : list Transaction.t),
       sys_log s' = sys_log s /\
       sys_queue s = tx :: rest /\ sys_queue s' = rest /\
       (buffered s' = buffered s ++ [tx] /\
        Z.of_nat (length (buffered s ++ [tx])) < batchSize (se (world s)) \/
        buffered s' = []))).
Proof.
  unfold sys_log, sys_queue, buffered. destruct c; simpl.
  - intros [= <-]. simpl.
    destruct (create_queue userID initialBalance (world s)) as [-> ->].
    split_and!; [done | | left; by split_and!; [| |left]].
    unfold CreateAccount. run_monad.
    destruct (accounts (se (world s)) !! userID); simpl; lia.
  - intros [= <-]. simpl.
    destruct (bool_decide (Transaction.UserID tx = "")
              || PrimFloat.leb (Transaction.Amount tx) 0) eqn:Hv.
    + rewrite (submit_invalid tx (world s) Hv). simpl.
      split_and!; [done | done | left; by split_and!; [| |left]].
    + rewrite (submit_valid tx (world s) Hv).
      destruct (length (chan_buf (settlementChan (se (world s))))
                <? chan_cap (settlementChan (se (world s))))%nat eqn:Hroom;
        simpl.
      * apply Nat.ltb_lt in Hroom.
        split_and!; [done | lia |]. right. left. eexists tx, _.
        split_and!; [done | lia | done | done | by right].
      * split_and!; [done | lia |]. right. left. eexists tx, _.
        split_and!; [done | lia | done | done | by left].
  - intros [= <-]. simpl.
    destruct (freeze_queue userID amount (world s)) as [-> ->].
    split_and!; [done | | left; by split_and!; [| |left]].
    unfold FreezeAmount. run_monad.
    destruct (accounts (se (world s)) !! userID) as [a|]; simpl; [|lia].
    destruct (PrimFloat.ltb (Account.Balance a) amount); simpl; lia.
  - intros [= <-]. simpl.
    destruct (unfreeze_queue userID amount (world s)) as [-> ->].
    split_and!; [done | | left; by split_and!; [| |left]].
    unfold UnfreezeAmount. run_monad.
    destruct (accounts (se (world s)) !! userID) as [a|]; simpl; [|lia].
    destruct (PrimFloat.ltb (Account.FrozenAmount a) amount); simpl; lia.
  - intros [= <-]. simpl.
    split_and!; [done | done | left; by split_and!; [| |left]].
  - destruct (worker s) eqn:Hw; [|intros [=]|];
      (unfold processSettlementQueue_init;
       destruct (batchSize (se (world s)) <? 0); simpl; intros [= <-]; simpl;
       split_and!; [done | done | left; by split_and!; [| |right]]).
  - unfold Stop. run_monad.
    destruct (stopChan_closed (se (world s))); simpl; intros [= <-]; simpl.
    split_and!; [done | done | left; by split_and!; [| |left]].
  - destruct (worker s) as [|wk|] eqn:Hw; [intros [=]| |intros [=]].
    destruct (loop_iteration c wk (world s)) as [[out|] w'] eqn:Hloop;
      simpl; intros [= <-]; simpl.
    apply loop_iteration_inv in Hloop.
    destruct Hloop as [(-> & tx & rest & Hq & [(_ & -> & ->)|(Hsize & -> & ->)])
                      |[(-> & -> & ->)|(-> & _ & -> & ->)]].
    + destruct (batch_queue (batch wk ++ [tx]) (after_recv (world s) rest))
        as [-> ->].
      pose proof (batch_ticks (batch wk ++ [tx]) (after_recv (world s) rest)).
      simpl in *. split_and!; [done | done |]. right. right. exists tx, rest.
      split_and!; [done | done | done | by right].
    + simpl. split_and!; [done | done |]. right. right. exists tx, rest.
      split_and!; [done | done | done | by left].
    + destruct (batch_queue (batch wk) (world s)) as [-> ->].
      pose proof (batch_ticks (batch wk) (world s)).
      split_and!; [done | done | left; by split_and!; [| |right]].
    + destruct (batch_queue (batch wk) (world s)) as [-> ->].
      pose proof (batch_ticks (batch wk) (world s)).
      split_and!; [done | done | left; by split_and!; [| |right]].
Qed.

(** X12. The transaction log is append-only: whatever calls are made, the
    log before them is a prefix of the log after them; entries are never
    removed, changed or reordered. *)
Theorem log_is_append_only (calls : list Call) (s s' : System) :
  run calls s = Some s' ->
  transactions (se (world s)) `prefix_of` transactions (se (world s')).
Proof.
  revert s. induction calls as [|c calls IH]; intros s; simpl.
  - by intros [= <-].
  - destruct (exec s c) as [s1|] eqn:He; simpl; [|intros [=]].
    intros Hrun. etransitivity; [|by apply IH].
    destruct (exec_pipeline s s1 c He)
      as (_ & _ & [(Hlog & _)|[(tx & ts & _ & _ & Hlog & _)|(tx & rest & Hlog & _)]]);
      unfold sys_log in Hlog; rewrite Hlog; [done| |done].
    by apply prefix_app_r.
Qed.

(** X13. Backpressure: on an engine made by [NewSettlementEngine] the queue
    never holds more than 1000 transactions, whatever calls are made; the
    capacity itself never changes. *)
Theorem queue_stays_bounded (calls : list Call) (s : System) :
  run calls init_system = Some s ->
  chan_cap (settlementChan (se (world s))) = 1000%nat /\
  (length (chan_buf (settlementChan (se (world s)))) <= 1000)%nat.
Proof.
  assert (forall calls s0 s1,
             chan_cap (settlementChan (se (world s0))) = 1000%nat /\
             (length (sys_queue s0) <= 1000)%nat ->
             run calls s0 = Some s1 ->
             chan_cap (settlementChan (se (world s1))) = 1000%nat /\
             (length (sys_queue s1) <= 1000)%nat) as Hgen.
  { clear calls s. induction calls as [|c calls IH]; intros s0 s1 Hinv; simpl.
    - by intros [= <-].
    - destruct (exec s0 c) as [s2|] eqn:He; simpl; [|intros [=]].
      apply IH. destruct Hinv as [Hcap Hlen].
      destruct (exec_pipeline s0 s2 c He)
        as (Hcap' & _ & [(_ & Hq & _)
                        |[(tx & ts & _ & _ & _ & _ & [Hq|[Hroom Hq]])
                         |(tx & rest & _ & Hq0 & Hq & _)]]);
        rewrite Hcap', Hcap; (split; [done|]); rewrite Hq.
      + done.
      + done.
      + rewrite length_app. simpl. lia.
      + rewrite Hq0 in Hlen. simpl in Hlen. lia. }
  intros Hrun. apply (Hgen calls init_system s); [|done].
  unfold sys_queue. simpl. split; [done | lia].
Qed.

(** X15. Transaction identifiers are unique as long as the clock never
    returns the same reading twice: then no two entries of the log have the
    same identifier, whatever calls are made on a new engine. *)
Theorem transaction_ids_unique (calls : list Call) (s : System) :
  (forall i j : nat, wall i = wall j -> i = j) ->
  run calls init_system = Some s ->
  NoDup (Transaction.ID <$> transactions (se (world s))).
Proof.
  intros Hinj.
  set (id_of := fun k : nat => "tx_" +:+ pretty (wall k)).
  assert (forall calls s0 s1,
             (exists ks : list nat,
                 Transaction.ID <$> sys_log s0 = id_of <$> ks /\
                 NoDup ks /\ Forall (fun k => (k < ticks (world s0))%nat) ks) ->
             run calls s0 = Some s1 ->
             exists ks : list nat,
               Transaction.ID <$> sys_log s1 = id_of <$> ks /\
               NoDup ks /\ Forall (fun k => (k < ticks (world s1))%nat) ks)
    as Hgen.
  { clear calls s. induction calls as [|c calls IH]; intros s0 s1 Hinv; simpl.
    - by intros [= <-].
    - destruct (exec s0 c) as [s2|] eqn:He; simpl; [|intros [=]].
      apply IH. destruct Hinv as (ks & Hids & Hnd & Hlt).
      destruct (exec_pipeline s0 s2 c He)
        as (_ & Hticks & [(-> & _)
                         |[(tx & ts & _ & Hinc & -> & _)
                          |(tx & rest & -> & _)]]).
      + exists ks. split_and!; [done | done |].
        eapply Forall_impl; [exact Hlt|]. simpl. lia.
      + exists (ks ++ [ticks (world s0)]). split_and!.
        * by rewrite !fmap_app, Hids.
        * apply NoDup_app. split_and!; [done | | apply NoDup_singleton].
          intros k Hk Hk'. apply list_elem_of_singleton in Hk'. subst k.
          rewrite Forall_forall in Hlt. specialize (Hlt _ Hk). lia.
        * apply Forall_app. split.
          -- eapply Forall_impl; [exact Hlt|]. simpl. lia.
          -- constructor; [lia | constructor].
      + exists ks. split_and!; [done | done |].
        eapply Forall_impl; [exact Hlt|]. simpl. lia. }
  intros Hrun.
  destruct (Hgen calls init_system s) as (ks & Hids & Hnd & _); [|done|].
  { exists []. split_and!; [done | constructor | constructor]. }
  unfold sys_log in Hids. rewrite Hids. apply NoDup_fmap_2; [|done].
  intros i j Hij. unfold id_of in Hij. simpl in Hij.
  injection Hij as Hij. apply Hinj. by apply (inj pretty).
Qed.

(** ** The batch size *)

Lemma settle_batchSize (tx : Transaction.t) (w : World) :
  batchSize (se (settle tx w).2) = batchSize (se w).
Proof.
  destruct (settle_cases_total tx w) as [H|a H Hk|a H Hk Hge|a H Hk Hge|a H Hc Hd].
  - by rewrite (settle_absent tx w H).
  - by rewrite (settle_credit tx w a H Hk).
  - by rewrite (settle_debit_ok tx w a H Hk Hge).
  - by rewrite (settle_debit_short tx w a H Hk Hge).
  - by rewrite (settle_other_kind tx w a H Hc Hd).
Qed.

Lemma batch_batchSize (txs : list Transaction.t) (w : World) :
  batchSize (se (batchProcessTransactions txs w).2) = batchSize (se w).
Proof.
  revert w. induction txs as [|tx txs IH]; intros w; [done|].
  rewrite batch_cons. cbn [snd]. rewrite IH. apply settle_batchSize.
Qed.

Lemma exec_batchSize (s s' : System) (c : Call) :
  (forall n : Z, c <> CallSetBatchSize n) ->
  exec s c = Some s' ->
  batchSize (se (world s')) = batchSize (se (world s)).
Proof.
  intros Hc. destruct c; simpl.
  - intros [= <-]. simpl. unfold CreateAccount. run_monad.
    by destruct (accounts (se (world s)) !! userID).
  - intros [= <-]. simpl.
    destruct (bool_decide (Transaction.UserID tx = "")
              || PrimFloat.leb (Transaction.Amount tx) 0) eqn:Hv.
    + by rewrite (submit_invalid tx (world s) Hv).
    + rewrite (submit_valid tx (world s) Hv).
      by destruct (length (chan_buf (settlementChan (se (world s))))
                   <? chan_cap (settlementChan (se (world s))))%nat.
  - intros [= <-]. simpl. unfold FreezeAmount. run_monad.
    destruct (accounts (se (world s)) !! userID) as [a|]; [|done].
    by destruct (PrimFloat.ltb (Account.Balance a) amount).
  - intros [= <-]. simpl. unfold UnfreezeAmount. run_monad.
    destruct (accounts (se (world s)) !! userID) as [a|]; [|done].
    by destruct (PrimFloat.ltb (Account.FrozenAmount a) amount).
  - by destruct (Hc n).
  - destruct (worker s); [|intros [=]|];
      (destruct (processSettlementQueue_init (se (world s))); simpl;
       by intros [= <-]).
  - unfold Stop. run_monad.
    by destruct (stopChan_closed (se (world s))); simpl; intros [= <-].
  - destruct (worker s) as [|wk|]; [intros [=]| |intros [=]].
    destruct (loop_iteration c wk (world s)) as [[out|] w'] eqn:Hloop;
      simpl; intros [= <-]; simpl.
    apply loop_iteration_inv in Hloop.
    destruct Hloop as [(-> & tx & rest & Hq & [(_ & -> & ->)|(_ & -> & ->)])
                      |[(-> & -> & ->)|(-> & _ & -> & ->)]];
      by rewrite ?batch_batchSize.
Qed.

(** X16. The batch buffer stays below the batch size.  On a new engine
    whose batch size is left at its default of 100, the worker's buffer
    holds fewer than 100 transactions in every state that any sequence of
    calls reaches: the buffer is flushed in the very iteration in which it
    would reach the batch size. *)
Theorem batch_buffer_stays_below_batch_size (calls : list Call) (s : System) :
  Forall (fun c => forall n : Z, c <> CallSetBatchSize n) calls ->
  run calls init_system = Some s ->
  batchSize (se (world s)) = 100 /\
  (length (buffered s) < 100)%nat.
Proof.
  assert (forall calls s0 s1,
             Forall (fun c => forall n : Z, c <> CallSetBatchSize n) calls ->
             batchSize (se (world s0)) = 100 /\ (length (buffered s0) < 100)%nat ->
             run calls s0 = Some s1 ->
             batchSize (se (world s1)) = 100 /\ (length (buffered s1) < 100)%nat)
    as Hgen.
  { clear calls s. induction calls as [|c calls IH]; intros s0 s1 Hc Hinv; simpl.
    - by intros [= <-].
    - inversion Hc as [|? ? Hc0 Hcs]; subst.
      destruct (exec s0 c) as [s2|] eqn:He; simpl; [|intros [=]].
      apply IH; [done|]. destruct Hinv as [Hsize Hlen].
      rewrite (exec_batchSize s0 s2 c Hc0 He). split; [done|].
      destruct (exec_pipeline s0 s2 c He)
        as (_ & _ & [(_ & _ & [-> | ->])
                    |[(tx & ts & _ & _ & _ & -> & _)
                     |(tx & rest & _ & _ & _ & [[-> Hlt] | ->])]]);
        simpl; lia. }
  intros Hc Hrun. apply (Hgen calls init_system s Hc); [|done].
  unfold buffered. simpl. split; [done | lia].
Qed.

(** ** From submission to settlement *)

Lemma loop_recv (wk : Worker) (w : World) (tx : Transaction.t)
      (rest : list Transaction.t) :
  chan_buf (settlementChan (se w)) = tx :: rest ->
  loop_iteration case_settlementChan wk w =
    if Z.of_nat (length (batch wk ++ [tx])) >=? batchSize (se w)
    then (Some (loop_continue
                  (mk_worker [] (timer_Reset (timer wk) (batchTimeout (se w))))),
          (batchProcessTransactions (batch wk ++ [tx]) (after_recv w rest)).2)
    else (Some (loop_continue (mk_worker (batch wk ++ [tx]) (timer wk))),
          after_recv w rest).
Proof.
  intros Hq. unfold loop_iteration. run_monad. unfold try_recv. rewrite Hq.
  simpl. fold (after_recv w rest).
  destruct (Z.of_nat (length (batch wk ++ [tx])) >=? batchSize (se w)); [|done].
  by rewrite processBatch_world.
Qed.

Lemma loop_timer (wk : Worker) (w : World) :
  loop_iteration case_timer_C wk w =
    (Some (loop_continue
             (mk_worker [] (timer_Reset (timer wk) (batchTimeout (se w))))),
     (batchProcessTransactions (batch wk) w).2).
Proof.
  unfold loop_iteration. run_monad.
  destruct (batch wk) as [|tx b]; simpl; [by destruct w|].
  by rewrite processBatch_world.
Qed.

Lemma batch_nil (w : World) : batchProcessTransactions [] w = ([], w).
Proof. reflexivity. Qed.

Lemma settle_accounts_ext (tx : Transaction.t) (w1 w2 : World) :
  accounts (se w1) = accounts (se w2) -> ticks w1 = ticks w2 ->
  accounts (se (settle tx w1).2) = accounts (se (settle tx w2).2).
Proof.
  intros Ha Ht.
  destruct (settle_cases_total tx w1) as [H|a H Hk|a H Hk Hge|a H Hk Hge|a H Hc Hd];
    pose proof H as H2; rewrite Ha in H2.
  - by rewrite (settle_absent tx w1 H), (settle_absent tx w2 H2).
  - rewrite (settle_credit tx w1 a H Hk), (settle_credit tx w2 a H2 Hk).
    unfold committed. simpl. by rewrite Ha, Ht.
  - rewrite (settle_debit_ok tx w1 a H Hk Hge), (settle_debit_ok tx w2 a H2 Hk Hge).
    unfold committed. simpl. by rewrite Ha, Ht.
  - by rewrite (settle_debit_short tx w1 a H Hk Hge),
       (settle_debit_short tx w2 a H2 Hk Hge).
  - by rewrite (settle_other_kind tx w1 a H Hc Hd),
       (settle_other_kind tx w2 a H2 Hc Hd).
Qed.

(** X17. End to end.  Let the worker be running with an empty buffer and
    the queue be empty.  A transaction that passes the validation of
    [SubmitTransaction] is logged and queued; once the worker has received
    it and its timer has fired, the queue and the buffer are empty again and
    the ledger is exactly the one that settling the stamped transaction
    leaves, whether the batch size made the worker flush on receipt or
    on the timer. *)
Theorem submitted_transaction_is_settled
        (s : System) (wk : Worker) (tx : Transaction.t) :
  worker s = running wk ->
  batch wk = [] ->
  chan_buf (settlementChan (se (world s))) = [] ->
  (0 < chan_cap (settlementChan (se (world s))))%nat ->
  Transaction.UserID tx <> "" ->
  PrimFloat.leb (Transaction.Amount tx) 0 = false ->
  let st := stamp tx ("tx_" +:+ pretty (wall (ticks (world s))))
                  (wall (S (ticks (world s)))) in
  exists s' : System,
    run [CallSubmitTransaction tx; CallSelect case_settlementChan;
         CallSelect case_timer_C] s = Some s' /\
    transactions (se (world s')) = transactions (se (world s)) ++ [st] /\
    chan_buf (settlementChan (se (world s'))) = [] /\
    buffered s' = [] /\
    accounts (se (world s')) =
      accounts (se (settle st (SubmitTransaction tx (world s)).2).2).
Proof.
  intros Hw Hb Hq Hcap Hu Ha st.
  assert (bool_decide (Transaction.UserID tx = "")
          || PrimFloat.leb (Transaction.Amount tx) 0 = false) as Hv.
  { by rewrite bool_decide_eq_false_2, Ha. }
  pose proof (submit_valid tx (world s) Hv) as Hsub. cbv zeta in Hsub.
  rewrite Hq in Hsub. simpl in Hsub. fold st in Hsub.
  assert ((0 <? chan_cap (settlementChan (se (world s))))%nat = true) as Hroom
      by by apply Nat.ltb_lt.
  rewrite Hroom in Hsub.
  set (w1 := (SubmitTransaction tx (world s)).2).
  assert (chan_buf (settlementChan (se w1)) = [st]) as Hq1
      by (subst w1; by rewrite Hsub).
  assert (transactions (se w1) = transactions (se (world s)) ++ [st]) as Hlog1
      by (subst w1; by rewrite Hsub).
  simpl run. fold w1. rewrite Hw. simpl.
  rewrite (loop_recv wk w1 st [] Hq1). rewrite Hb. cbn [app length].
  destruct (settle_queue st (after_recv w1 [])) as [Hl Hc].
  destruct (Z.of_nat 1 >=? batchSize (se w1));
    cbn -[batchProcessTransactions settle].
  - rewrite loop_timer. cbn -[batchProcessTransactions settle].
    eexists. split; [reflexivity|].
    cbn -[batchProcessTransactions settle].
    rewrite ?batch_cons, ?batch_nil. cbn -[batchProcessTransactions settle].
    rewrite ?batch_cons, ?batch_nil. cbn -[batchProcessTransactions settle].
    split_and!; [by rewrite Hl | by rewrite Hc | done |].
    by apply settle_accounts_ext.
  - rewrite loop_timer. cbn -[batchProcessTransactions settle].
    eexists. split; [reflexivity|].
    cbn -[batchProcessTransactions settle].
    rewrite ?batch_cons, ?batch_nil. cbn -[batchProcessTransactions settle].
    rewrite ?batch_cons, ?batch_nil. cbn -[batchProcessTransactions settle].
    split_and!; [by rewrite Hl | by rewrite Hc | done |].
    by apply settle_accounts_ext.
Qed.

(** ** What SubmitTransaction writes *)

(** X18. [SubmitTransaction] never touches the ledger, and it does not
    look at it: a transaction for a user without an account is accepted
    like any other.  A rejected transaction is handed back to the caller
    unchanged.  An accepted one is handed back with the new identifier, the
    submission timestamp and the status pending, and with its user, amount,
    kind and description as the caller gave them, also when the queue is
    full. *)
Theorem submit_stamps_callers_transaction (tx : Transaction.t) (w : World) :
  let err := (SubmitTransaction tx w).1.1 in
  let tx' := (SubmitTransaction tx w).1.2 in
  let w' := (SubmitTransaction tx w).2 in
  accounts (se w') = accounts (se w) /\
  (err = Some InvalidTransaction -> tx' = tx) /\
  (err <> Some InvalidTransaction ->
   Transaction.ID tx' = "tx_" +:+ pretty (wall (ticks w)) /\
   Transaction.Timestamp tx' = wall (S (ticks w)) /\
   Transaction.Status tx' = "pending" /\
   Transaction.UserID tx' = Transaction.UserID tx /\
   Transaction.Amount tx' = Transaction.Amount tx /\
   Transaction.Type_ tx' = Transaction.Type_ tx /\
   Transaction.Description tx' = Transaction.Description tx /\
   last (transactions (se w')) = Some tx').
Proof.
  intros err tx' w'. subst err tx' w'.
  destruct (bool_decide (Transaction.UserID tx = "")
            || PrimFloat.leb (Transaction.Amount tx) 0) eqn:Hv.
  - rewrite (submit_invalid tx w Hv). simpl. by split_and!.
  - rewrite (submit_valid tx w Hv).
    destruct (length (chan_buf (settlementChan (se w)))
              <? chan_cap (settlementChan (se w)))%nat; simpl.
    + split_and!; [done | intros [=] |]. intros _.
      split_and!; try done. by rewrite last_snoc.
    + split_and!; [done | intros [=] |]. intros _.
      split_and!; try done. by rewrite last_snoc.
Qed.

(** ** Stop *)

Lemma settle_stop_flag (tx : Transaction.t) (w : World) :
  stopChan_closed (se (settle tx w).2) = stopChan_closed (se w).
Proof.
  destruct (settle_cases_total tx w) as [H|a H Hk|a H Hk Hge|a H Hk Hge|a H Hc Hd].
  - by rewrite (settle_absent tx w H).
  - by rewrite (settle_credit tx w a H Hk).
  - by rewrite (settle_debit_ok tx w a H Hk Hge).
  - by rewrite (settle_debit_short tx w a H Hk Hge).
  - by rewrite (settle_other_kind tx w a H Hc Hd).
Qed.

Lemma batch_stop_flag (txs : list Transaction.t) (w : World) :
  stopChan_closed (se (batchProcessTransactions txs w).2) =
    stopChan_closed (se w).
Proof.
  revert w. induction txs as [|tx txs IH]; intros w; [done|].
  rewrite batch_cons. cbn [snd]. rewrite IH. apply settle_stop_flag.
Qed.

Lemma exec_stop_flag (s s' : System) (c : Call) :
  stopChan_closed (se (world s)) = true ->
  exec s c = Some s' ->
  stopChan_closed (se (world s')) = true.
Proof.
  intros Hclosed. destruct c; simpl.
  - intros [= <-]. simpl. unfold CreateAccount. run_monad.
    by destruct (accounts (se (world s)) !! userID).
  - intros [= <-]. simpl.
    destruct (bool_decide (Transaction.UserID tx = "")
              || PrimFloat.leb (Transaction.Amount tx) 0) eqn:Hv.
    + by rewrite (submit_invalid tx (world s) Hv).
    + rewrite (submit_valid tx (world s) Hv).
      by destruct (length (chan_buf (settlementChan (se (world s))))
                   <? chan_cap (settlementChan (se (world s))))%nat.
  - intros [= <-]. simpl. unfold FreezeAmount. run_monad.
    destruct (accounts (se (world s)) !! userID) as [a|]; [|done].
    by destruct (PrimFloat.ltb (Account.Balance a) amount).
  - intros [= <-]. simpl. unfold UnfreezeAmount. run_monad.
    destruct (accounts (se (world s)) !! userID) as [a|]; [|done].
    by destruct (PrimFloat.ltb (Account.FrozenAmount a) amount).
  - by intros [= <-].
  - destruct (worker s); [|intros [=]|];
      (destruct (processSettlementQueue_init (se (world s))); simpl;
       by intros [= <-]).
  - unfold Stop. run_monad. rewrite Hclosed. simpl. intros [=].
  - destruct (worker s) as [|wk|]; [intros [=]| |intros [=]].
    destruct (loop_iteration c wk (world s)) as [[out|] w'] eqn:Hloop;
      simpl; intros [= <-]; simpl.
    apply loop_iteration_inv in Hloop.
    destruct Hloop as [(-> & tx & rest & Hq & [(_ & -> & ->)|(_ & -> & ->)])
                      |[(-> & -> & ->)|(-> & _ & -> & ->)]];
      by rewrite ?batch_stop_flag.
Qed.

Lemma run_app (calls1 calls2 : list Call) (s : System) :
  run (calls1 ++ calls2) s = s1 ← run calls1 s; run calls2 s1.
Proof.
  revert s. induction calls1 as [|c calls1 IH]; intros s; simpl; [done|].
  destruct (exec s c) as [s1|]; simpl; [apply IH | done].
Qed.

(** X19. [Stop] can be called once.  A successful [Stop] closes the stop
    channel, nothing reopens it, and a second [Stop] panics, whatever calls
    are made before the first one and between the two. *)
Theorem stop_twice_panics (before between : list Call) (s : System) :
  run (before ++ CallStop :: between ++ [CallStop]) s = None.
Proof.
  assert (forall calls s0 s1,
             stopChan_closed (se (world s0)) = true ->
             run calls s0 = Some s1 ->
             stopChan_closed (se (world s1)) = true) as Hkeep.
  { induction calls as [|c calls IH]; intros s0 s1 Hc; simpl.
    - by intros [= <-].
    - destruct (exec s0 c) as [s2|] eqn:He; simpl; [|intros [=]].
      apply IH. by eapply exec_stop_flag. }
  rewrite run_app. destruct (run before s) as [s1|]; simpl; [|done].
  unfold Stop at 1. run_monad.
  destruct (stopChan_closed (se (world s1))) eqn:Hc1; simpl; [done|].
  rewrite run_app.
  match goal with
  | |- context [run between ?s2] =>
      destruct (run between s2) as [s3|] eqn:Hrun; simpl; [|done];
        apply Hkeep in Hrun; [|done]
  end.
  unfold Stop. run_monad. by rewrite Hrun.
Qed.

(** ** Accounts persist *)

Lemma batch_identity (txs : list Transaction.t) (w : World) (userID : string) :
  account_identity <$> accounts (se (batchProcessTransactions txs w).2) !! userID =
    account_identity <$> accounts (se w) !! userID.
Proof.
  revert w. induction txs as [|tx txs IH]; intros w; [done|].
  rewrite batch_cons. cbn [snd]. rewrite IH. apply settle_identity.
Qed.

(** What a call does to the account stored under a key: the account stays
    with its user identifier, or the key was free and [CreateAccount] fills
    it with an account of that user. *)
Lemma exec_account (s s' : System) (c : Call) (userID : string) :
  exec s c = Some s' ->
  Account.UserID <$> accounts (se (world s')) !! userID =
    Account.UserID <$> accounts (se (world s)) !! userID \/
  accounts (se (world s)) !! userID = None /\
  Account.UserID <$> accounts (se (world s')) !! userID = Some userID.
Proof.
  destruct c; simpl.
  - intros [= <-]. simpl. unfold CreateAccount. run_monad.
    destruct (accounts (se (world s)) !! userID0) as [a|] eqn:H; simpl;
      [by left|].
    destruct (decide (userID0 = userID)) as [->|Hne].
    + right. by rewrite lookup_insert_eq.
    + left. by rewrite lookup_insert_ne.
  - intros [= <-]. simpl. left.
    destruct (submit_effect tx (world s)) as [Ha _]. by rewrite Ha.
  - intros [= <-]. simpl. left. unfold FreezeAmount. run_monad.
    destruct (accounts (se (world s)) !! userID0) as [a|] eqn:H; [|done].
    destruct (PrimFloat.ltb (Account.Balance a) amount); simpl; [done|].
    destruct (decide (userID0 = userID)) as [->|Hne].
    + by rewrite lookup_insert_eq, H.
    + by rewrite lookup_insert_ne.
  - intros [= <-]. simpl. left. unfold UnfreezeAmount. run_monad.
    destruct (accounts (se (world s)) !! userID0) as [a|] eqn:H; [|done].
    destruct (PrimFloat.ltb (Account.FrozenAmount a) amount); simpl; [done|].
    destruct (decide (userID0 = userID)) as [->|Hne].
    + by rewrite lookup_insert_eq, H.
    + by rewrite lookup_insert_ne.
  - intros [= <-]. by left.
  - destruct (worker s); [|intros [=]|];
      (destruct (processSettlementQueue_init (se (world s))); simpl;
       intros [= <-]; by left).
  - unfold Stop. run_monad.
    destruct (stopChan_closed (se (world s))); simpl; intros [= <-]. by left.
  - destruct (worker s) as [|wk|]; [intros [=]| |intros [=]].
    destruct (loop_iteration c wk (world s)) as [[out|] w'] eqn:Hloop;
      simpl; intros [= <-]; simpl. left.
    apply loop_iteration_inv in Hloop.
    assert (forall txs w0,
               Account.UserID <$>
                 accounts (se (batchProcessTransactions txs w0).2) !! userID =
               Account.UserID <$> accounts (se w0) !! userID) as Hb.
    { intros txs w0. pose proof (batch_identity txs w0 userID) as Hid.
      destruct (accounts (se (batchProcessTransactions txs w0).2) !! userID),
               (accounts (se w0) !! userID); simpl in *; try done.
      by injection Hid as -> _. }
    destruct Hloop as [(-> & tx & rest & Hq & [(_ & -> & ->)|(_ & -> & ->)])
                      |[(-> & -> & ->)|(-> & _ & -> & ->)]];
      by rewrite ?Hb.
Qed.

(** X20. Accounts are never removed and never change owner: an account
    that exists before a sequence of calls exists after it, under the same
    key and with the same user identifier. *)
Theorem accounts_are_never_removed
        (calls : list Call) (s s' : System) (userID : string) (a : Account.t) :
  run calls s = Some s' ->
  accounts (se (world s)) !! userID = Some a ->
  exists a' : Account.t,
    accounts (se (world s')) !! userID = Some a' /\
    Account.UserID a' = Account.UserID a.
Proof.
  revert s a. induction calls as [|c calls IH]; intros s a; simpl.
  - intros [= <-] Ha. by exists a.
  - destruct (exec s c) as [s1|] eqn:He; simpl; [|intros [=]].
    intros Hrun Ha.
    destruct (exec_account s s1 c userID He) as [Hsame|[Hnone _]];
      [|congruence].
    rewrite Ha in Hsame. simpl in Hsame.
    destruct (accounts (se (world s1)) !! userID) as [a1|] eqn:Ha1;
      [|discriminate Hsame].
    injection Hsame as Hid.
    destruct (IH s1 a1 Hrun Ha1) as (a' & Ha' & Hid').
    exists a'. split; [done | congruence].
Qed.

(** X21. On an engine made by [NewSettlementEngine], every account is
    stored under its own user identifier, whatever calls are made. *)
Theorem account_key_is_user_id
        (calls : list Call) (s : System) (userID : string) (a : Account.t) :
  run calls init_system = Some s ->
  accounts (se (world s)) !! userID = Some a ->
  Account.UserID a = userID.
Proof.
  assert (forall calls s0 s1,
             (forall u a0, accounts (se (world s0)) !! u = Some a0 ->
                           Account.UserID a0 = u) ->
             run calls s0 = Some s1 ->
             forall u a1, accounts (se (world s1)) !! u = Some a1 ->
                          Account.UserID a1 = u) as Hgen.
  { clear calls s userID a.
    induction calls as [|c calls IH]; intros s0 s1 Hinv; simpl.
    - by intros [= <-].
    - destruct (exec s0 c) as [s2|] eqn:He; simpl; [|intros [=]].
      apply IH. intros u a0 Ha0.
      destruct (exec_account s0 s2 c u He) as [Hsame|[_ Hnew]].
      + rewrite Ha0 in Hsame. simpl in Hsame.
        destruct (accounts (se (world s0)) !! u) as [a1|] eqn:Ha1;
          [|discriminate Hsame].
        injection Hsame as ->. by apply Hinv.
      + rewrite Ha0 in Hnew. by injection Hnew. }
  intros Hrun. apply (Hgen calls init_system s); [|done].
  intros u a0. simpl. by rewrite lookup_empty.
Qed.

End Engine.

(** * Concrete runs

    The clock of the examples counts its readings; the literals of type
    [float] denote the nearest binary64 value, as Go's literals do. *)

Set Warnings "-inexact-float".

Definition wall0 (n : nat) : time_Time := Z.of_nat n.

Definition world0 : World := mk_world NewSettlementEngine 0.

Definition mk_tx (userID : string) (amount : float) (kind : string)
  : Transaction.t :=
  Transaction.mk "" userID amount kind "" 0 "".

(** The ledger with the account [u1] of the design document's scenario. *)
Definition world_u1 : World := (CreateAccount wall0 "u1" 1000 world0).2.

Definition account_u1 : Account.t := Account.mk "u1" 1000 0 1 0.

Lemma debit_settlement_witness :
  accounts (se world_u1) !! "u1" = Some account_u1 /\
  SettlementResult.Success (settle wall0 (mk_tx "u1" 100 "debit") world_u1).1 = true /\
  Account.Balance <$>
    accounts (se (settle wall0 (mk_tx "u1" 100 "debit") world_u1).2) !! "u1" =
    Some 900%float.
Proof.
  split; [vm_compute; reflexivity|].
  pose proof (debit_settlement wall0 (mk_tx "u1" 100 "debit") world_u1 account_u1
                ltac:(vm_compute; reflexivity) ltac:(reflexivity)) as H.
  cbv zeta in H. destruct H as (Hiff & Hok & _).
  assert (SettlementResult.Success
            (settle wall0 (mk_tx "u1" 100 "debit") world_u1).1 = true) as Hs.
  { apply Hiff. vm_compute. reflexivity. }
  split; [exact Hs|]. etransitivity; [exact (Hok Hs)|]. vm_compute. reflexivity.
Defined.

Lemma credit_settlement_witness :
  accounts (se world_u1) !! "u1" = Some account_u1 /\
  SettlementResult.Success (settle wall0 (mk_tx "u1" 500 "credit") world_u1).1 = true /\
  SettlementResult.NewBalance (settle wall0 (mk_tx "u1" 500 "credit") world_u1).1 =
    1500%float.
Proof.
  split; [vm_compute; reflexivity|].
  pose proof (credit_settlement wall0 (mk_tx "u1" 500 "credit") world_u1 account_u1
                ltac:(vm_compute; reflexivity) ltac:(reflexivity)) as H.
  cbv zeta in H. destruct H as (Hs & _ & Hn).
  split; [exact Hs|]. rewrite Hn. vm_compute. reflexivity.
Defined.

Lemma freeze_then_unfreeze_witness :
  accounts (se world_u1) !! "u1" = Some account_u1 /\
  (FreezeAmount wall0 "u1" 200 world_u1).1 = None /\
  (UnfreezeAmount wall0 "u1" 200 (FreezeAmount wall0 "u1" 200 world_u1).2).1 = None.
Proof.
  split; [vm_compute; reflexivity|]. split; [vm_compute; reflexivity|].
  pose proof (freeze_then_unfreeze wall0 "u1" 200 world_u1 account_u1
                ltac:(vm_compute; reflexivity) ltac:(vm_compute; reflexivity)) as H.
  cbv zeta in H. destruct H as (Hiff & _).
  apply Hiff. vm_compute. reflexivity.
Defined.

(** C6 does not hold as the design document states it: with a balance of
    570.6, freezing 35.56 and unfreezing 35.56 both succeed and leave the
    balance 570.5999999999999. *)
Lemma freeze_unfreeze_not_identity :
  ~ (forall (wall : nat -> time_Time) (userID : string) (amount : float)
            (w : World) (account : Account.t),
        accounts (se w) !! userID = Some account ->
        (FreezeAmount wall userID amount w).1 = None ->
        let w1 := (FreezeAmount wall userID amount w).2 in
        (UnfreezeAmount wall userID amount w1).1 = None /\
        exists account',
          accounts (se (UnfreezeAmount wall userID amount w1).2) !! userID =
            Some account' /\
          Account.Balance account' = Account.Balance account /\
          Account.FrozenAmount account' = Account.FrozenAmount account).
Proof.
  intros H.
  specialize (H wall0 "u1" 35.56%float
                (CreateAccount wall0 "u1" 570.6 world0).2
                (Account.mk "u1" 570.6 0 1 0)
                ltac:(vm_compute; reflexivity) ltac:(vm_compute; reflexivity)).
  cbv zeta in H. destruct H as (_ & account' & Hacc & Hb & _).
  vm_compute in Hacc. injection Hacc as <-. simpl in Hb.
  apply (f_equal (fun x => PrimFloat.eqb x 570.6)) in Hb.
  vm_compute in Hb. discriminate Hb.
Qed.

(** The scenario of the design document: an account with 1000, a debit of
    100 that the worker settles on a timeout, then a freeze of 200 and an
    unfreeze of 50. *)
Definition scenario : list Call :=
  [CallCreateAccount "u1" 1000; CallStart;
   CallSubmitTransaction (mk_tx "u1" 100 "debit");
   CallSelect case_settlementChan; CallSelect case_timer_C;
   CallFreezeAmount "u1" 200; CallUnfreezeAmount "u1" 50].

(** The same scenario with the transaction as an object of the caller:
    the caller makes it, submits it in two steps, and the worker receives
    the pointer and settles the object on a timeout. *)
Definition shared_scenario : list SCall :=
  [SCreateAccount "u1" 1000; SStart;
   SNewTransaction (mk_tx "u1" 100 "debit");
   SSubmitBegin 0%nat; SSubmitSend 0%nat;
   SSelect case_settlementChan; SSelect case_timer_C;
   SFreezeAmount "u1" 200; SUnfreezeAmount "u1" 50].



(** The shared scenario ends like the scenario above, with the balance 750
    and the frozen amount 150. *)
Example shared_scenario_result :
  match shared_run wall0 shared_scenario init_shared with
  | Some s =>
      accounts (se (sh_world s)) !! "u1" = Some (Account.mk "u1" 750 150 4 6)
  | None => False
  end.
Proof. vm_compute. reflexivity. Qed.

(** Why the amounts written to the objects matter.  A credit of 100 is
    submitted and queued; the caller then sets the amount of that same
    object to -500 and submits it again.  The second submission is rejected,
    but the pointer of the first one is still in the queue, and the worker
    settles what the object holds by then: the balance goes from 0 to
    -500. *)
Example rewritten_object_is_settled :
  match shared_run wall0
          [SCreateAccount "u1" 0;
           SNewTransaction (mk_tx "u1" 100 "credit");
           SSubmitBegin 0%nat; SSubmitSend 0%nat;
           SWriteTransaction 0%nat
             (Transaction.mk "tx_1" "u1" (-500) "credit" "pending" 2 "");
           SSubmitBegin 0%nat;
           SStart; SSelect case_settlementChan; SSelect case_timer_C]
          init_shared with
  | Some s =>
      Account.Balance <$> accounts (se (sh_world s)) !! "u1" = Some (-500)%float /\
      Transaction.Amount <$> transactions (se (sh_world s)) = [100%float] /\
      chan_buf (sh_chan s) = []
  | None => False
  end.
Proof. vm_compute. repeat split. Qed.


(** C2 on the code: a debit is submitted and the worker settles it (the
    balance goes from 1000 to 900), yet the logged transaction still has the
    status pending and [GetTransactionStats] counts it as pending, not as
    processed. *)
Lemma settled_transaction_still_pending :
  match run wall0 [CallCreateAccount "u1" 1000; CallStart;
                   CallSubmitTransaction (mk_tx "u1" 100 "debit");
                   CallSelect case_settlementChan; CallSelect case_timer_C]
            init_system with
  | Some s =>
      Account.Balance <$> accounts (se (world s)) !! "u1" = Some 900%float /\
      chan_buf (settlementChan (se (world s))) = [] /\
      Transaction.Status <$> transactions (se (world s)) = ["pending"] /\
      (GetTransactionStats (world s)).1 !! "pending_transactions" = Some 1 /\
      (GetTransactionStats (world s)).1 !! "processed_transactions" = Some 0
  | None => False
  end.
Proof. vm_compute. repeat split. Qed.

(** The scenario ends with the balance 750 and the frozen amount 150. *)
Example scenario_result :
  match run wall0 scenario init_system with
  | Some s =>
      accounts (se (world s)) !! "u1" = Some (Account.mk "u1" 750 150 4 6)
  | None => False
  end.
Proof. vm_compute. reflexivity. Qed.

(** A full queue: the call returns [QueueFull], and the transaction is in
    the log all the same. *)
Example submit_on_full_queue :
  let full :=
    mk_world (set_settlementChan NewSettlementEngine
                (mk_chan (replicate 1000 (mk_tx "u1" 1 "credit")) 1000))
             0 in
  let r := SubmitTransaction wall0 (mk_tx "u1" 100 "debit") full in
  r.1.1 = Some QueueFull /\
  Transaction.ID <$> transactions (se r.2) = ["tx_0"] /\
  length (chan_buf (settlementChan (se r.2))) = 1000%nat.
Proof. vm_compute. repeat split. Qed.

(** Why the amounts have to be finite.  NaN passes the validation of
    [SubmitTransaction] (it is not [<= 0]), and a credit of NaN leaves a
    balance that is not [>= 0]. *)
Example nan_amount_is_accepted :
  match run wall0 [CallCreateAccount "u1" 1000; CallStart;
                   CallSubmitTransaction (mk_tx "u1" nan "credit");
                   CallSelect case_settlementChan; CallSelect case_timer_C]
            init_system with
  | Some s =>
      (fun a => PrimFloat.leb 0 (Account.Balance a)) <$>
        accounts (se (world s)) !! "u1" = Some false
  | None => False
  end.
Proof. vm_compute. reflexivity. Qed.

(** [FreezeAmount] does not look at the sign of the amount: freezing -5
    succeeds and leaves a frozen amount of -5. *)
Example negative_freeze_is_accepted :
  let r := FreezeAmount wall0 "u1" (-5) world_u1 in
  r.1 = None /\
  accounts (se r.2) !! "u1" = Some (Account.mk "u1" 1005 (-5) 2 1).
Proof. vm_compute. split; reflexivity. Qed.

(** ** The theorems at concrete inputs *)

(** A worker with two buffered transactions and a batch size of three, as
    the repository's batch test sets it, receives a third one. *)
Definition engine_batch3 : SettlementEngine :=
  mk_engine (accounts (se world_u1)) []
            (mk_chan [mk_tx "u1" 50 "debit"] 1000) false 3 (5 * time_Second).

Definition worker_two : Worker :=
  mk_worker [mk_tx "u1" 100 "debit"; mk_tx "u1" 200 "credit"]
            (time_NewTimer (5 * time_Second)).

Lemma loop_iteration_spec_witness :
  (loop_iteration wall0 case_settlementChan worker_two
                  (mk_world engine_batch3 1)).1 =
    Some (loop_continue (mk_worker [] (mk_timer (5 * time_Second) 1))) /\
  Account.Balance <$>
    accounts (se (loop_iteration wall0 case_settlementChan worker_two
                                 (mk_world engine_batch3 1)).2) !! "u1" =
    Some 1050%float.
Proof.
  destruct (loop_iteration_spec wall0 worker_two (mk_world engine_batch3 1))
    as (Hrecv & _).
  destruct (Hrecv (mk_tx "u1" 50 "debit") [] eq_refl) as [Hfull _].
  rewrite Hfull by (simpl; lia). split; [reflexivity|].
  vm_compute. reflexivity.
Defined.

Lemma settlement_outcomes_witness :
  SettlementResult.ErrorMessage
    (settle wall0 (mk_tx "nobody" 10 "credit") world_u1).1 = SettleAccountNotFound /\
  SettlementResult.ErrorMessage
    (settle wall0 (mk_tx "u1" 10 "transfer") world_u1).1 = InvalidTransactionKind /\
  se (settle wall0 (mk_tx "u1" 10 "transfer") world_u1).2 = se world_u1.
Proof.
  destruct (settlement_outcomes wall0 (mk_tx "nobody" 10 "credit") world_u1)
    as (Habsent & _).
  destruct (settlement_outcomes wall0 (mk_tx "u1" 10 "transfer") world_u1)
    as (_ & Hkind & Hfail & _).
  destruct (Habsent ltac:(vm_compute; reflexivity)) as [_ Hmsg].
  destruct (Hkind ltac:(vm_compute; eexists; reflexivity)
                  ltac:(discriminate) ltac:(discriminate)) as [Hs Hmsg'].
  destruct (Hfail Hs) as [Hse _].
  split; [exact Hmsg|]. split; [exact Hmsg' | exact Hse].
Defined.

Lemma create_account_spec_witness :
  accounts (se (CreateAccount wall0 "u2" (-3) world_u1).2) !! "u2" =
    Some (Account.mk "u2" (-3) 0 1 1) /\
  (CreateAccount wall0 "u1" 500 world_u1).1 = Some (DuplicateAccount "u1").
Proof.
  destruct (create_account_spec wall0 "u2" (-3) world_u1) as (Hnew & _).
  destruct (create_account_spec wall0 "u1" 500 world_u1) as (_ & Hdup & _).
  destruct (Hnew ltac:(vm_compute; reflexivity)) as (_ & Hacc & _).
  destruct (Hdup ltac:(vm_compute; eexists; reflexivity)) as [Herr _].
  split; [exact Hacc | exact Herr].
Defined.


Lemma batch_sequential_witness :
  let r := batchProcessTransactions wall0
             [mk_tx "u1" 100 "debit"; mk_tx "u1" 1000 "debit"] world_u1 in
  (fun x => (SettlementResult.Success x, SettlementResult.ErrorMessage x,
             SettlementResult.NewBalance x)) <$> r.1 =
    [(true, "", 900%float); (false, InsufficientBalance, 900%float)] /\
  Account.Balance <$> accounts (se r.2) !! "u1" = Some 900%float.
Proof.
  destruct (batch_sequential wall0
              [mk_tx "u1" 100 "debit"; mk_tx "u1" 1000 "debit"] world_u1)
    as (_ & _ & _ & Hfold & _).
  cbv zeta. rewrite Hfold. vm_compute. split; reflexivity.
Defined.

(** ** The further properties at concrete inputs *)

(** An account, a running worker, two submissions and one receipt: one
    transaction is in the worker's buffer and one waits in the queue. *)
Definition pipeline_calls : list Call :=
  [CallCreateAccount "u1" 1000; CallStart;
   CallSubmitTransaction (mk_tx "u1" 100 "debit");
   CallSubmitTransaction (mk_tx "u2" 50 "credit");
   CallSelect case_settlementChan].

(** The engine with the account [u1] and a worker that has just started. *)
Definition started : System :=
  mk_system world_u1 (running (mk_worker [] (time_NewTimer (5 * time_Second)))).

Lemma batch_touches_only_named_accounts_witness :
  ("u1" ∉ Transaction.UserID <$> [mk_tx "u2" 50 "credit"; mk_tx "u3" 5 "debit"]) /\
  accounts (se (batchProcessTransactions wall0
                  [mk_tx "u2" 50 "credit"; mk_tx "u3" 5 "debit"] world_u1).2)
    !! "u1" = Some account_u1.
Proof.
  assert ("u1" ∉ Transaction.UserID <$>
            [mk_tx "u2" 50 "credit"; mk_tx "u3" 5 "debit"]) as Hnot.
  { simpl. intros Hin. repeat (apply elem_of_cons in Hin as [Hin|Hin];
                               [discriminate Hin|]).
    by apply elem_of_nil in Hin. }
  split; [exact Hnot|].
  rewrite (batch_touches_only_named_accounts wall0 _ world_u1 "u1" Hnot).
  vm_compute. reflexivity.
Defined.

Lemma failed_batch_changes_nothing_witness :
  se (batchProcessTransactions wall0
        [mk_tx "u1" 5000 "debit"; mk_tx "nobody" 5 "credit"] world_u1).2 =
    se world_u1.
Proof.
  apply failed_batch_changes_nothing. vm_compute. repeat constructor.
Defined.

Lemma log_is_append_only_witness :
  is_Some (run wall0 [CallSubmitTransaction (mk_tx "u1" 7 "credit");
                      CallSelect case_settlementChan; CallSelect case_timer_C]
               started) /\
  forall s : System,
    run wall0 [CallSubmitTransaction (mk_tx "u1" 7 "credit");
               CallSelect case_settlementChan; CallSelect case_timer_C]
        started = Some s ->
    transactions (se (world started)) `prefix_of` transactions (se (world s)).
Proof.
  split; [vm_compute; eexists; reflexivity|].
  intros s Hs. exact (log_is_append_only wall0 _ started s Hs).
Defined.

Lemma queue_stays_bounded_witness :
  is_Some (run wall0 pipeline_calls init_system) /\
  forall s : System,
    run wall0 pipeline_calls init_system = Some s ->
    chan_cap (settlementChan (se (world s))) = 1000%nat /\
    (length (chan_buf (settlementChan (se (world s)))) <= 1000)%nat.
Proof.
  split; [vm_compute; eexists; reflexivity|].
  intros s Hs. exact (queue_stays_bounded wall0 pipeline_calls s Hs).
Defined.

Lemma wall0_injective (i j : nat) : wall0 i = wall0 j -> i = j.
Proof. unfold wall0. apply Nat2Z.inj. Qed.

Lemma transaction_ids_unique_witness :
  is_Some (run wall0 pipeline_calls init_system) /\
  forall s : System,
    run wall0 pipeline_calls init_system = Some s ->
    NoDup (Transaction.ID <$> transactions (se (world s))).
Proof.
  split; [vm_compute; eexists; reflexivity|].
  intros s Hs.
  exact (transaction_ids_unique wall0 pipeline_calls s wall0_injective Hs).
Defined.

(** Without that hypothesis the identifiers can collide: on a clock that
    stands still two submissions get the same identifier. *)
Example same_reading_same_identifier :
  match run (fun _ => 5) [CallSubmitTransaction (mk_tx "u1" 1 "credit");
                          CallSubmitTransaction (mk_tx "u2" 2 "debit")]
            init_system with
  | Some s => Transaction.ID <$> transactions (se (world s)) = ["tx_5"; "tx_5"]
  | None => False
  end.
Proof. vm_compute. reflexivity. Qed.

Lemma pipeline_calls_keep_batch_size :
  Forall (fun c => forall n : Z, c <> CallSetBatchSize n) pipeline_calls.
Proof. repeat constructor; discriminate. Qed.

Lemma batch_buffer_stays_below_batch_size_witness :
  is_Some (run wall0 pipeline_calls init_system) /\
  forall s : System,
    run wall0 pipeline_calls init_system = Some s ->
    batchSize (se (world s)) = 100 /\ (length (buffered s) < 100)%nat.
Proof.
  split; [vm_compute; eexists; reflexivity|].
  intros s Hs.
  exact (batch_buffer_stays_below_batch_size wall0 pipeline_calls s
           pipeline_calls_keep_batch_size Hs).
Defined.

Lemma submitted_transaction_is_settled_witness :
  exists s' : System,
    run wall0 [CallSubmitTransaction (mk_tx "u1" 100 "debit");
               CallSelect case_settlementChan; CallSelect case_timer_C]
        started = Some s' /\
    Account.Balance <$> accounts (se (world s')) !! "u1" = Some 900%float.
Proof.
  destruct (submitted_transaction_is_settled wall0 started
              (mk_worker [] (time_NewTimer (5 * time_Second)))
              (mk_tx "u1" 100 "debit")
              eq_refl eq_refl eq_refl
              ltac:(vm_compute; lia) ltac:(discriminate)
              ltac:(vm_compute; reflexivity))
    as (s' & Hrun & _ & _ & _ & Hacc).
  exists s'. split; [exact Hrun|]. rewrite Hacc. vm_compute. reflexivity.
Defined.

Lemma accounts_are_never_removed_witness :
  is_Some (run wall0 [CallFreezeAmount "u1" 200;
                      CallSubmitTransaction (mk_tx "u1" 100 "debit");
                      CallSelect case_settlementChan; CallSelect case_timer_C]
               started) /\
  forall s : System,
    run wall0 [CallFreezeAmount "u1" 200;
               CallSubmitTransaction (mk_tx "u1" 100 "debit");
               CallSelect case_settlementChan; CallSelect case_timer_C]
        started = Some s ->
    exists a' : Account.t,
      accounts (se (world s)) !! "u1" = Some a' /\
      Account.UserID a' = "u1".
Proof.
  split; [vm_compute; eexists; reflexivity|].
  intros s Hs.
  exact (accounts_are_never_removed wall0 _ started s "u1" account_u1 Hs
           ltac:(vm_compute; reflexivity)).
Defined.

Lemma account_key_is_user_id_witness :
  is_Some (run wall0 scenario init_system) /\
  forall s : System,
    run wall0 scenario init_system = Some s ->
    exists a : Account.t,
      accounts (se (world s)) !! "u1" = Some a /\ Account.UserID a = "u1".
Proof.
  split; [vm_compute; eexists; reflexivity|].
  intros s Hs.
  assert (is_Some (accounts (se (world s)) !! "u1")) as [a Ha].
  { revert Hs. vm_compute. intros [= <-]. eexists. reflexivity. }
  exists a. split; [exact Ha|].
  exact (account_key_is_user_id wall0 scenario s "u1" a Hs Ha).
Defined.
